(** * Replay memory of MOPDERL: a shallow embedding of [MOPDERL/replay_memory.py]

    The Python class [ReplayMemory] is a fixed-capacity circular buffer of
    [Transition] named tuples.  Python integers are modelled by [Z], Python
    lists by [list] (with the slicing and index-assignment rules of the
    language written out), numpy arrays by a shape and a flat data list, and
    the methods by functions in a state-and-exception monad: a Python
    exception does not roll back what the method had already mutated. *)

From stdpp Require Import base numbers list strings.

Open Scope Z_scope.

(** ** Exceptions and results *)

(** Both [random.sample] and [np.concatenate] raise [ValueError]; the raising
    site is kept so that the two can be told apart. *)
Inductive origin := RandomSample | NpConcatenate.

Inductive exn :=
  | IndexError
  | TypeError
  | AttributeError
  | ZeroDivisionError
  | EOFError
  | ValueError (o : origin).

Inductive result (A : Type) :=
  | Ok (a : A)
  | Raise (e : exn).
Arguments Ok {A} a.
Arguments Raise {A} e.

Definition is_ok {A} (r : result A) : bool :=
  match r with Ok _ => true | Raise _ => false end.

(** ** Methods as state transformers that may raise *)

Definition M (S A : Type) : Type := S → result A * S.

Definition ret {S A} (a : A) : M S A := λ s, (Ok a, s).
Definition raise {S A} (e : exn) : M S A := λ s, (Raise e, s).
Definition bind {S A B} (m : M S A) (k : A → M S B) : M S B :=
  λ s, match m s with
       | (Ok a, s') => k a s'
       | (Raise e, s') => (Raise e, s')
       end.
Definition get {S} : M S S := λ s, (Ok s, s).
Definition put {S} (s : S) : M S unit := λ _, (Ok tt, s).
Definition lift {S A} (r : result A) : M S A := λ s, (r, s).

(** Running a computation on one component of a pair of states. *)
Definition on_fst {S T A} (m : M S A) : M (S * T) A :=
  λ w, let '(r, s) := m w.1 in (r, (s, w.2)).
Definition on_snd {S T A} (m : M T A) : M (S * T) A :=
  λ w, let '(r, t) := m w.2 in (r, (w.1, t)).

Notation "'do' x <- m ; k" := (bind m (λ x, k))
  (at level 10, x name, m at level 100, k at level 200).
Notation "m ;; k" := (bind m (λ _, k))
  (at level 100, k at level 200, right associativity).

(** ** Python lists *)

Module Py.

(** Clamping of a slice bound: a negative bound counts from the end, and
    the result is clipped to [0, len]. *)
Definition clamp (len i : Z) : nat :=
  Z.to_nat (if bool_decide (i < 0) then Z.max (i + len) 0 else Z.min i len).

(** [l[i:]] *)
Definition slice_from {A} (l : list A) (i : Z) : list A :=
  drop (clamp (Z.of_nat (length l)) i) l.

(** [l[:j]] *)
Definition slice_to {A} (l : list A) (j : Z) : list A :=
  take (clamp (Z.of_nat (length l)) j) l.

(** [l[i:j]] *)
Definition slice {A} (l : list A) (i j : Z) : list A :=
  drop (clamp (Z.of_nat (length l)) i) (take (clamp (Z.of_nat (length l)) j) l).

(** [l[i] = x]: negative indices count from the end, anything outside
    [-len, len) raises [IndexError]. *)
Definition setitem {A} (l : list A) (i : Z) (x : A) : result (list A) :=
  let n := Z.of_nat (length l) in
  if bool_decide (0 ≤ i < n) then Ok (<[Z.to_nat i := x]> l)
  else if bool_decide (- n ≤ i < 0) then Ok (<[Z.to_nat (i + n) := x]> l)
  else Raise IndexError.

(** [a % b] on integers: the sign follows the divisor, as [Z.modulo]. *)
Definition mod_ (a b : Z) : result Z :=
  if bool_decide (b = 0) then Raise ZeroDivisionError else Ok (a `mod` b).

(** [l[i]] *)
Definition getitem {A} (l : list A) (i : Z) : result A :=
  let n := Z.of_nat (length l) in
  let j := if bool_decide (i < 0) then i + n else i in
  if bool_decide (0 ≤ j < n)
  then match l !! Z.to_nat j with Some x => Ok x | None => Raise IndexError end
  else Raise IndexError.

(** The last [n] elements of a list (all of it when it is shorter). *)
Definition lastn {A} (n : nat) (l : list A) : list A :=
  drop (length l - n)%nat l.

(** [x[i], x[j] = x[j], x[i]]: both reads come first, then the two writes. *)
Definition swap {A} (x : list A) (i j : nat) : result (list A) :=
  match x !! j, x !! i with
  | Some xj, Some xi => Ok (<[j := xi]> (<[i := xj]> x))
  | _, _ => Raise IndexError
  end.

End Py.

(** ** The random module *)

Module Random.

(** The generator is a supply of raw draws; [randbelow n] reduces the next
    one below [n]. *)
Definition rng := list nat.

Definition randbelow (n : nat) : M rng nat :=
  λ g, match g with
       | [] => (Ok 0%nat, [])
       | r :: g' => (Ok (r `mod` n)%nat, g')
       end.

(** The selection loop of [random.sample]: draw an index into the pool of
    items not yet chosen, take that item, and move the last item of the
    pool into the vacancy.  Every arrangement of [k] distinct positions is
    the outcome for some supply of draws. *)
Fixpoint choose {A} (pool : list A) (k : nat) : M rng (list A) :=
  match k with
  | O => ret []
  | S k' =>
      let n := length pool in
      do j <- randbelow n;
      match pool !! j, pool !! (n - 1)%nat with
      | Some x, Some y =>
          do rest <- choose (take (n - 1) (<[j := y]> pool)) k';
          ret (x :: rest)
      | _, _ => ret []
      end
  end.

(** [random.sample(population, k)]: [ValueError] when [k] is negative or
    larger than the population, raised before any draw. *)
Definition sample {A} (population : list A) (k : Z) : M rng (list A) :=
  if bool_decide (0 ≤ k ≤ Z.of_nat (length population))
  then choose population (Z.to_nat k)
  else raise (ValueError RandomSample).

(** The loop of [random.shuffle]:
    [for i in reversed(range(1, len(x))): j = randbelow(i + 1); x[i], x[j] = x[j], x[i]]. *)
Fixpoint shuffle_down {A} (i : nat) (x : list A) : M rng (list A) :=
  match i with
  | O => ret x
  | S i' =>
      do j <- randbelow (i + 1);
      do x' <- lift (Py.swap x i j);
      shuffle_down i' x'
  end.

(** [random.shuffle(x)], returning the list as it is afterwards. *)
Definition shuffle {A} (x : list A) : M rng (list A) :=
  shuffle_down (length x - 1) x.

End Random.

(** ** numpy arrays *)

Record ndarray (T : Type) := NdArray { shape : list nat; data : list T }.
Arguments NdArray {T} shape data.
Arguments shape {T} _.
Arguments data {T} _.

Module Np.

(** [np.reshape(a, (1, -1))]: one row holding every element of [a]. *)
Definition reshape_row {T} (a : ndarray T) : ndarray T :=
  NdArray [1%nat; length (data a)] (data a).

Definition same_trailing {T} (tl : list nat) (b : ndarray T) : bool :=
  match shape b with
  | [] => false
  | _ :: tl' => bool_decide (tl' = tl)
  end.

(** [np.concatenate(arrs)] along axis 0: at least one array, none of them
    zero-dimensional, all with the same trailing dimensions. *)
Definition concatenate {T} (arrs : list (ndarray T)) : result (ndarray T) :=
  match arrs with
  | [] => Raise (ValueError NpConcatenate)
  | a :: rest =>
      match shape a with
      | [] => Raise (ValueError NpConcatenate)
      | _ :: tl =>
          if forallb (same_trailing tl) rest
          then Ok (NdArray (sum_list (hd 0%nat ∘ shape <$> arrs) :: tl)
                           (concat (data <$> arrs)))
          else Raise (ValueError NpConcatenate)
      end
  end.

(** The rows of an array read as [r] rows of [c] columns. *)
Fixpoint chunks {T} (r c : nat) (d : list T) : list (list T) :=
  match r with
  | O => []
  | S r' => take c d :: chunks r' c (drop c d)
  end.

Definition rows {T} (a : ndarray T) : list (list T) :=
  match shape a with
  | [r; c] => chunks r c (data a)
  | _ => []
  end.

End Np.

(** ** Transitions *)

(** [Transition = namedtuple('Transition', ('state', 'action', 'reward',
    'next_state', 'done'))].  The tuple is polymorphic: the buffer stores
    tuples of arrays, [sample] builds a tuple of tuples of arrays. *)
Record Transition (A : Type) := mkTransition {
  state : A;
  action : A;
  reward : A;
  next_state : A;
  done : A
}.
Arguments mkTransition {A}.
Arguments state {A} _.
Arguments action {A} _.
Arguments reward {A} _.
Arguments next_state {A} _.
Arguments done {A} _.

(** [Transition( *args )]: exactly five positional arguments. *)
Definition Transition_new {A} (args : list A) : result (Transition A) :=
  match args with
  | [s; a; r; ns; d] => Ok (mkTransition s a r ns d)
  | _ => Raise TypeError
  end.

(** Iterating a transition ([ *transition ]) yields its fields in order. *)
Definition fields {A} (t : Transition A) : list A :=
  [state t; action t; reward t; next_state t; done t].

(** [Transition._fields], and access to a field by its name. *)
Inductive field := State | Action | Reward | NextState | Done.

Definition get_field {A} (f : field) (t : Transition A) : A :=
  match f with
  | State => state t
  | Action => action t
  | Reward => reward t
  | NextState => next_state t
  | Done => done t
  end.

Section ReplayMemory.

(** The element type of the numpy arrays handed to the buffer, the element
    type of a [torch.FloatTensor], and the cast between them. *)
Variable scalar : Type.
Variable float32 : Type.
Variable to_float32 : scalar → float32.

Definition array := ndarray scalar.

(** A slot of [self.memory]: [None] right after [append(None)], otherwise a
    transition. *)
Definition slot := option (Transition array).

Record ReplayMemory := mkReplayMemory {
  device : string;
  capacity : Z;
  memory : list slot;
  position : Z
}.

Definition set_memory (m : list slot) (self : ReplayMemory) : ReplayMemory :=
  mkReplayMemory (device self) (capacity self) m (position self).
Definition set_position (p : Z) (self : ReplayMemory) : ReplayMemory :=
  mkReplayMemory (device self) (capacity self) (memory self) p.

(** [ReplayMemory(capacity, device)] *)
Definition init (capacity : Z) (device : string) : ReplayMemory :=
  mkReplayMemory device capacity [] 0.

(** [len(self)] *)
Definition len (self : ReplayMemory) : Z := Z.of_nat (length (memory self)).

(** [add(self, *args)] *)
Definition add (args : list array) : M ReplayMemory unit :=
  do self <- get;
  (if bool_decide (len self < capacity self)
   then put (set_memory (memory self ++ [None]) self)
   else ret tt);;
  let reshaped_args := Np.reshape_row <$> args in
  do t <- lift (Transition_new reshaped_args);
  do self <- get;
  do m <- lift (Py.setitem (memory self) (position self) (Some t));
  put (set_memory m self);;
  do p <- lift (Py.mod_ (position self + 1) (capacity self));
  do self <- get;
  put (set_position p self).

(** [get_latest(self, latest)]; [.copy()] is the identity on values. *)
Definition get_latest (self : ReplayMemory) (latest : Z) : list slot :=
  if bool_decide (capacity self < latest) then
    Py.slice_from (memory self) (position self)
      ++ Py.slice_to (memory self) (position self)
  else if bool_decide (len self < capacity self) then
    Py.slice_from (memory self) (- latest)
  else if bool_decide (latest ≤ position self) then
    Py.slice_from (Py.slice_to (memory self) (position self)) (- latest)
  else
    Py.slice_from (memory self) (- latest + position self)
      ++ Py.slice_to (memory self) (position self).

(** [self.add( *transition )] for an element of another buffer's storage:
    unpacking [None] raises [TypeError]. *)
Definition add_star (transition : slot) : M ReplayMemory unit :=
  match transition with
  | None => raise TypeError
  | Some t => add (fields t)
  end.

(** [for transition in latest_trans: self.add( *transition )] *)
Fixpoint add_each (latest_trans : list slot) : M ReplayMemory unit :=
  match latest_trans with
  | [] => ret tt
  | transition :: rest => add_star transition;; add_each rest
  end.

(** [add_content_of(self, other)] *)
Definition add_content_of (other : ReplayMemory) : M ReplayMemory unit :=
  do self <- get;
  let latest_trans := get_latest other (capacity self) in
  add_each latest_trans.

(** [add_latest_from(self, other, latest)] *)
Definition add_latest_from (other : ReplayMemory) (latest : Z) : M ReplayMemory unit :=
  let latest_trans := get_latest other latest in
  add_each latest_trans.

(** [reset(self)] *)
Definition reset : M ReplayMemory unit :=
  do self <- get;
  put (set_position 0 (set_memory [] self)).

(** *** Sampling *)

(** The state of a sampling call: the buffer and the process-wide random
    generator. *)
Definition sampling := (ReplayMemory * Random.rng)%type.

(** [torch.FloatTensor(a).to(device)] *)
Record Tensor := mkTensor { values : ndarray float32; on_device : string }.

Definition FloatTensor (a : array) : ndarray float32 :=
  NdArray (shape a) (to_float32 <$> data a).

(** [zip( *transitions )]: every element is unpacked, and the fields are
    regrouped column-wise; no argument at all gives no column. *)
Fixpoint unpack_all (transitions : list slot) : result (list (Transition array)) :=
  match transitions with
  | [] => Ok []
  | None :: _ => Raise TypeError
  | Some t :: rest =>
      match unpack_all rest with
      | Ok ts => Ok (t :: ts)
      | Raise e => Raise e
      end
  end.

Definition zip_star (transitions : list slot) : result (list (list array)) :=
  match unpack_all transitions with
  | Raise e => Raise e
  | Ok [] => Ok []
  | Ok ts => Ok [state <$> ts; action <$> ts; reward <$> ts;
                 next_state <$> ts; done <$> ts]
  end.

(** [torch.FloatTensor(np.concatenate(column)).to(self.device)] *)
Definition to_batch (column : list array) : M sampling Tensor :=
  do self <- on_fst get;
  do a <- lift (Np.concatenate column);
  ret (mkTensor (FloatTensor a) (device self)).

(** The common tail of [sample] and [sample_from_latest]: the source
    evaluates the columns in the order state, action, next_state, reward,
    done and returns them in the order of the fields. *)
Definition group (transitions : list slot)
  : M sampling (Tensor * Tensor * Tensor * Tensor * Tensor) :=
  do columns <- lift (zip_star transitions);
  do batch <- lift (Transition_new columns);
  do state_ <- to_batch (state batch);
  do action_ <- to_batch (action batch);
  do next_state_ <- to_batch (next_state batch);
  do reward_ <- to_batch (reward batch);
  do done_ <- to_batch (done batch);
  ret (state_, action_, reward_, next_state_, done_).

(** [sample(self, batch_size)] *)
Definition sample (batch_size : Z)
  : M sampling (Tensor * Tensor * Tensor * Tensor * Tensor) :=
  do self <- on_fst get;
  do transitions <- on_snd (Random.sample (memory self) batch_size);
  group transitions.

(** [sample_from_latest(self, batch_size, latest)] *)
Definition sample_from_latest (batch_size latest : Z)
  : M sampling (Tensor * Tensor * Tensor * Tensor * Tensor) :=
  do self <- on_fst get;
  let latest_trans := get_latest self latest in
  do transitions <- on_snd (Random.sample latest_trans batch_size);
  group transitions.

(** [shuffle(self)]: the list is shuffled in place. *)
Definition shuffle : M sampling unit :=
  do self <- on_fst get;
  do m <- on_snd (Random.shuffle (memory self));
  on_fst (put (set_memory m self)).

(** *** Persistence *)

(** A file written by [save_info]: the integer array of the first
    [np.save], then one array per later [np.save]. *)
Record npy_file := mkFile { header : list Z; records : list array }.

(** [np.save(f, a)] appends a record. *)
Definition np_save (a : array) : M (list array) unit :=
  λ f, (Ok tt, f ++ [a]).

(** [np.load(f)] reads the next record. *)
Definition np_load : M (list array) array :=
  λ f, match f with
       | [] => (Raise EOFError, [])
       | a :: f' => (Ok a, f')
       end.

(** [for trans in self.memory: np.save(f, trans.state); ...]: a [None] slot
    has no attribute [state]. *)
Fixpoint save_each (transitions : list slot) : M (list array) unit :=
  match transitions with
  | [] => ret tt
  | None :: _ => raise AttributeError
  | Some trans :: rest =>
      np_save (state trans);;
      np_save (action trans);;
      np_save (reward trans);;
      np_save (next_state trans);;
      np_save (done trans);;
      save_each rest
  end.

(** [save_info(self, file_path)]: the outcome and the file left on disk. *)
Definition save_info (self : ReplayMemory) : result unit * npy_file :=
  let '(r, f) := save_each (memory self) [] in
  (r, mkFile [len self; position self] f).

(** [for _ in range(length): s = np.load(f); ...; self.add( *t )] *)
Fixpoint load_each (length : nat) : M (ReplayMemory * list array) unit :=
  match length with
  | O => ret tt
  | S length' =>
      do s <- on_snd np_load;
      do a <- on_snd np_load;
      do r <- on_snd np_load;
      do ns <- on_snd np_load;
      do d <- on_snd np_load;
      let t := [s; a; r; ns; d] in
      on_fst (add t);;
      load_each length'
  end.

(** [load_info(self, file_path)] *)
Definition load_info (file : npy_file) : M ReplayMemory unit :=
  λ self,
    let body : M (ReplayMemory * list array) unit :=
      (do self <- on_fst get;
       on_fst (put (set_memory [] self));;
       let info := header file in
       do length <- lift (Py.getitem info 0);
       do pos <- lift (Py.getitem info 1);
       load_each (Z.to_nat length);;
       do self <- on_fst get;
       on_fst (put (set_position pos self))) in
    let '(r, (self', _)) := body (self, records file) in
    (r, self').

End ReplayMemory.

Arguments mkReplayMemory {scalar}.
Arguments device {scalar}.
Arguments capacity {scalar}.
Arguments memory {scalar}.
Arguments position {scalar}.
Arguments set_memory {scalar}.
Arguments set_position {scalar}.
Arguments init {scalar}.
Arguments len {scalar}.
Arguments add {scalar}.
Arguments get_latest {scalar}.
Arguments add_star {scalar}.
Arguments add_each {scalar}.
Arguments add_content_of {scalar}.
Arguments add_latest_from {scalar}.
Arguments reset {scalar}.


Arguments mkTensor {float32}.
Arguments values {float32}.
Arguments on_device {float32}.
Arguments FloatTensor {scalar float32}.
Arguments unpack_all {scalar}.
Arguments zip_star {scalar}.
Arguments to_batch {scalar float32}.
Arguments group {scalar float32}.
Arguments sample {scalar float32}.
Arguments sample_from_latest {scalar float32}.
Arguments shuffle {scalar}.
Arguments mkFile {scalar}.
Arguments header {scalar}.
Arguments records {scalar}.
Arguments np_save {scalar}.
Arguments np_load {scalar}.
Arguments save_each {scalar}.
Arguments save_info {scalar}.
Arguments load_each {scalar}.
Arguments load_info {scalar}.


(** ** Vocabulary of the statements *)

Section Vocabulary.
Context {scalar : Type}.

(** What [add] writes into the storage for the arguments [x]. *)
Definition stored (x : Transition (array scalar)) : slot scalar :=
  Some (mkTransition (Np.reshape_row (state x)) (Np.reshape_row (action x))
          (Np.reshape_row (reward x)) (Np.reshape_row (next_state x))
          (Np.reshape_row (done x))).

(** A sequence of inserts, one [add] per element, first to last. *)
Definition inserts (xs : list (Transition (array scalar))) : M (ReplayMemory scalar) unit :=
  add_each (Some <$> xs).

(** An array in the form [add] stores: a single row. *)
Definition is_row (a : array scalar) : bool :=
  bool_decide (shape a = [1%nat; length (data a)]).

Definition row_slot (e : slot scalar) : bool :=
  match e with
  | Some t => forallb is_row (fields t)
  | None => false
  end.

(** The data model of a buffer: the cursor lies in [0, capacity), the
    storage holds at most [capacity] slots, and every slot is a transition
    of single-row arrays. *)
Definition bounded (self : ReplayMemory scalar) : Prop :=
  0 ≤ position self < capacity self ∧ len self ≤ capacity self.

Definition well_formed (self : ReplayMemory scalar) : Prop :=
  bounded self ∧ forallb row_slot (memory self) = true.

(** A single row of [c] columns. *)
Definition row_of_width (c : nat) (a : array scalar) : bool :=
  bool_decide (shape a = [1%nat; c]) && bool_decide (length (data a) = c).

(** A slot holding a transition whose fields have the widths [w]. *)
Definition slot_widths (w : Transition nat) (e : slot scalar) : bool :=
  match e with
  | Some t =>
      forallb (λ f, row_of_width (get_field f w) (get_field f t))
        [State; Action; Reward; NextState; Done]
  | None => false
  end.

(** The feature count of every field is the same throughout the storage. *)
Definition homogeneous (w : Transition nat) (self : ReplayMemory scalar) : Prop :=
  forallb (slot_widths w) (memory self) = true.

(** The cursor is where a run of inserts leaves it: at the end of the
    storage while the buffer fills up, anywhere in it once it is full. *)
Definition consistent (self : ReplayMemory scalar) : Prop :=
  0 < capacity self
  ∧ ((len self < capacity self ∧ position self = len self)
     ∨ (len self = capacity self ∧ 0 ≤ position self < capacity self)).

(** The storage read from the cursor to the end and then from the start to
    the cursor. *)
Definition wrap_order (self : ReplayMemory scalar) : list (slot scalar) :=
  Py.slice_from (memory self) (position self)
    ++ Py.slice_to (memory self) (position self).

Context {float32 : Type} (to_float32 : scalar → float32).

(** The batch [T] groups field [f] of [k] stored transitions: it lives on
    the buffer's device, has [k] rows of the width of [f], and every row is
    the (cast) row of field [f] of some stored transition. *)
Definition grouped (self : ReplayMemory scalar) (k : Z) (w : Transition nat)
    (f : field) (T : Tensor float32) : Prop :=
  on_device T = device self
  ∧ shape (values T) = [Z.to_nat k; get_field f w]
  ∧ length (Np.rows (values T)) = Z.to_nat k
  ∧ Forall (λ row, ∃ t, Some t ∈ memory self
                        ∧ row = to_float32 <$> data (get_field f t))
      (Np.rows (values T)).

(** The batch [T] stacks field [f] of the transitions [ts], one row per
    transition and in their order, on the buffer's device. *)
Definition batch_of (self : ReplayMemory scalar) (w : Transition nat)
    (ts : list (Transition (array scalar))) (f : field) (T : Tensor float32) : Prop :=
  on_device T = device self
  ∧ shape (values T) = [length ts; get_field f w]
  ∧ Np.rows (values T) = (λ t, to_float32 <$> data (get_field f t)) <$> ts.

End Vocabulary.

(** ** Concrete buffers *)

Module Example.

(** The arguments of one [add]: observations of two features, a
    one-dimensional action, and zero-dimensional reward and flag. *)
Definition obs (k : Z) : Transition (array Z) :=
  mkTransition (NdArray [2%nat] [k; k + 1]) (NdArray [1%nat] [k])
    (NdArray [] [k]) (NdArray [2%nat] [k + 1; k + 2]) (NdArray [] [0]).

Definition four : list (Transition (array Z)) := obs <$> [1; 2; 3; 4].
Definition five : list (Transition (array Z)) := obs <$> [1; 2; 3; 4; 5].

(** A buffer of the given capacity after one insert per key. *)
Definition filled (C : Z) (ks : list Z) : ReplayMemory Z :=
  snd (inserts (obs <$> ks) (init C "cpu")).

(** Capacity 3 after four inserts: full, wrapped once, cursor at 1. *)
Definition wrapped : ReplayMemory Z := filled 3 [1; 2; 3; 4].

(** Capacity 2 after two inserts: full, cursor back at 0. *)
Definition just_full : ReplayMemory Z := filled 2 [1; 2].

(** Capacity 5 after three inserts: not full. *)
Definition partial : ReplayMemory Z := filled 5 [1; 2; 3].

(** Capacity 2 after one insert: in use, cursor at 1. *)
Definition in_use : ReplayMemory Z := filled 2 [1].

(** The feature counts of [obs]. *)
Definition widths : Transition nat := mkTransition 2%nat 1%nat 1%nat 2%nat 1%nat.

(** A supply of draws for the generator. *)
Definition draws : Random.rng := [5%nat; 7%nat].

(** The file written by saving a buffer that holds one transition. *)
Definition one_record_file : npy_file Z := snd (save_info (filled 3 [7])).

(** The transition [add] stores for [obs k]: every field a single row. *)
Definition kept (k : Z) : Transition (array Z) :=
  mkTransition (NdArray [1%nat; 2%nat] [k; k + 1]) (NdArray [1%nat; 1%nat] [k])
    (NdArray [1%nat; 1%nat] [k]) (NdArray [1%nat; 2%nat] [k + 1; k + 2])
    (NdArray [1%nat; 1%nat] [0]).

(** The wrapped buffer saved and loaded into a new buffer of capacity 4:
    three slots, cursor at 1. *)
Definition reloaded : ReplayMemory Z :=
  snd (load_info (snd (save_info wrapped)) (init 4 "cpu")).

(** One more insert on the reloaded buffer: four slots, the last one
    holding [None]. *)
Definition holed : ReplayMemory Z := snd (add (fields (obs 9)) reloaded).

(** A file whose header has a single number. *)
Definition short_header_file : npy_file Z := mkFile [1] (fields (kept 1)).

End Example.

(** ** Lemmas on Python lists *)

Module PyFacts.
Import Py.

Lemma clamp_nonneg len i : 0 ≤ i → 0 ≤ len → clamp len i = Z.to_nat (Z.min i len).
Proof. intros. unfold clamp. case_bool_decide; [lia | done]. Qed.

Lemma clamp_neg len i : i < 0 → 0 ≤ len → clamp len i = (Z.to_nat len - Z.to_nat (- i))%nat.
Proof. intros. unfold clamp. case_bool_decide; lia. Qed.

Lemma slice_from_nonneg {A} (l : list A) i :
  0 ≤ i → slice_from l i = drop (Z.to_nat i) l.
Proof.
  intros Hi. unfold slice_from. rewrite clamp_nonneg by lia.
  destruct (decide (i ≤ Z.of_nat (length l))).
  - by rewrite Z.min_l.
  - rewrite Z.min_r, !drop_ge by lia. done.
Qed.

Lemma slice_to_nonneg {A} (l : list A) j :
  0 ≤ j → slice_to l j = take (Z.to_nat j) l.
Proof.
  intros Hj. unfold slice_to. rewrite clamp_nonneg by lia.
  destruct (decide (j ≤ Z.of_nat (length l))).
  - by rewrite Z.min_l.
  - rewrite Z.min_r, !take_ge by lia. done.
Qed.

Lemma slice_from_neg {A} (l : list A) i :
  i < 0 → slice_from l i = lastn (Z.to_nat (- i)) l.
Proof.
  intros Hi. unfold slice_from, lastn. rewrite clamp_neg by lia.
  by rewrite Nat2Z.id.
Qed.

Lemma slice_nonneg {A} (l : list A) i j :
  0 ≤ i → 0 ≤ j → slice l i j = drop (Z.to_nat i) (take (Z.to_nat j) l).
Proof.
  intros Hi Hj. unfold slice. rewrite !clamp_nonneg by lia.
  destruct (decide (j ≤ Z.of_nat (length l))); destruct (decide (i ≤ Z.of_nat (length l))).
  - by rewrite !Z.min_l.
  - rewrite (Z.min_r i), (Z.min_l j), !drop_ge by (rewrite ?length_take; lia). done.
  - rewrite (Z.min_l i), (Z.min_r j), !take_ge by lia. done.
  - rewrite (Z.min_r i), (Z.min_r j), !take_ge, !drop_ge by lia. done.
Qed.

Lemma length_lastn {A} n (l : list A) : length (lastn n l) = (n `min` length l)%nat.
Proof. unfold lastn. rewrite length_drop. lia. Qed.

Lemma lastn_all {A} n (l : list A) : (length l ≤ n)%nat → lastn n l = l.
Proof. intros. unfold lastn. by replace (length l - n)%nat with 0%nat by lia. Qed.

Lemma lastn_app_r {A} n (l1 l2 : list A) :
  (n ≤ length l2)%nat → lastn n (l1 ++ l2) = lastn n l2.
Proof.
  intros. unfold lastn. rewrite length_app, drop_app_ge by lia.
  f_equal. lia.
Qed.

Lemma lastn_app_l {A} n (l1 l2 : list A) :
  (length l2 ≤ n)%nat → lastn n (l1 ++ l2) = lastn (n - length l2) l1 ++ l2.
Proof.
  intros. unfold lastn. rewrite length_app.
  replace (length l1 + length l2 - n)%nat with (length l1 - (n - length l2))%nat by lia.
  rewrite drop_app_le by lia. done.
Qed.

Lemma lastn_lastn {A} n m (l : list A) : lastn n (lastn m l) = lastn (n `min` m) l.
Proof.
  unfold lastn. rewrite length_drop, drop_drop. f_equal. lia.
Qed.

Lemma lastn_snoc {A} n (l : list A) x :
  lastn (S n) (l ++ [x]) = lastn n l ++ [x].
Proof. rewrite lastn_app_l by (simpl; lia). simpl. by rewrite Nat.sub_0_r. Qed.

Lemma setitem_in_range {A} (l : list A) i x :
  0 ≤ i < Z.of_nat (length l) → setitem l i x = Ok (<[Z.to_nat i := x]> l).
Proof. intros. unfold setitem. simpl. by rewrite bool_decide_true. Qed.

Lemma setitem_out_of_range {A} (l : list A) i x :
  Z.of_nat (length l) ≤ i → setitem l i x = Raise IndexError.
Proof.
  intros. unfold setitem. simpl.
  rewrite !bool_decide_false by lia. done.
Qed.

Lemma setitem_middle {A} (l1 l2 : list A) y x :
  setitem (l1 ++ y :: l2) (Z.of_nat (length l1)) x = Ok (l1 ++ x :: l2).
Proof.
  rewrite setitem_in_range by (rewrite length_app; simpl; lia).
  rewrite Nat2Z.id, insert_app_r_alt, Nat.sub_diag by lia. done.
Qed.

End PyFacts.

(** ** Inserting *)

Section Inserting.
Context {scalar : Type}.
Implicit Types (self : ReplayMemory scalar) (x : Transition (array scalar)).
Import Py PyFacts.

(** [add] in direct style. *)
Lemma add_run x self :
  add (fields x) self =
    let mem1 := if bool_decide (len self < capacity self)
                then memory self ++ [None] else memory self in
    match setitem mem1 (position self) (stored x) with
    | Raise e => (Raise e, set_memory mem1 self)
    | Ok m =>
        match mod_ (position self + 1) (capacity self) with
        | Raise e => (Raise e, set_memory m self)
        | Ok p => (Ok tt, mkReplayMemory (device self) (capacity self) m p)
        end
    end.
Proof.
  destruct self as [dev C mem pos]. unfold add, bind, get, put, lift, ret, len. simpl.
  case_bool_decide; simpl; unfold stored;
    (destruct (setitem _ _ _) as [m|e]; simpl; [|done]);
    destruct (mod_ _ _); done.
Qed.

Lemma add_each_app (l1 l2 : list (slot scalar)) self :
  add_each (l1 ++ l2) self = (add_each l1;; add_each l2) self.
Proof.
  revert self. induction l1 as [|e l1 IH]; intros self; simpl.
  - done.
  - unfold bind in *. destruct (add_star e self) as [[[]|err] self']; [|done].
    apply IH.
Qed.

Lemma inserts_snoc xs x self :
  inserts (xs ++ [x]) self = (inserts xs;; add (fields x)) self.
Proof.
  unfold inserts. rewrite fmap_app, add_each_app. unfold bind. simpl.
  destruct (add_each _ self) as [[[]|err] self']; [|done].
  unfold bind. by destruct (add (fields x) self') as [[[]|err] self''].
Qed.

Lemma lastn_pred {A} n (l : list A) :
  (S n ≤ length l)%nat → lastn n l = drop 1 (lastn (S n) l).
Proof. intros. unfold lastn. rewrite drop_drop. f_equal. lia. Qed.

Lemma next_position C n : 0 < C → (n `mod` C + 1) `mod` C = (n + 1) `mod` C.
Proof. intros. by rewrite Zplus_mod_idemp_l. Qed.

Local Ltac layout_done :=
  repeat split;
  first [ done | lia | do 2 f_equal; lia | rewrite length_app; simpl; lia ].

(** The circular layout after a sequence of inserts into a new buffer: the
    storage is [A ++ B] with the cursor at the end of [A], and [B ++ A]
    lists the retained inserts from the oldest to the most recent. *)
Lemma inserts_layout C dev xs :
  0 < C →
  ∃ A B : list (slot scalar),
    inserts xs (init C dev)
      = (Ok tt, mkReplayMemory dev C (A ++ B) (Z.of_nat (length A)))
    ∧ Z.of_nat (length A) = Z.of_nat (length xs) `mod` C
    ∧ B ++ A = lastn (Z.to_nat C) (stored <$> xs)
    ∧ (Z.of_nat (length xs) < C → B = []).
Proof.
  intros HC. induction xs as [|x xs IH] using rev_ind.
  { exists [], []. by repeat split. }
  destruct IH as (A & B & Hrun & Hpos & Hlay & Hnil).
  assert (Hlen : (length B + length A)%nat = (Z.to_nat C `min` length xs)%nat).
  { rewrite <- length_app, Hlay, length_lastn, length_fmap. done. }
  assert (Hnext : (Z.of_nat (length A) + 1) `mod` C
                  = Z.of_nat (length (xs ++ [x])) `mod` C).
  { rewrite Hpos, next_position by done. f_equal. rewrite length_app. simpl. lia. }
  assert (Hbound : 0 ≤ Z.of_nat (length A) < C).
  { rewrite Hpos. by apply Z.mod_pos_bound. }
  rewrite inserts_snoc. unfold bind at 1. rewrite Hrun, add_run. simpl.
  unfold len, mod_. simpl. rewrite (bool_decide_false (C = 0)) by lia.
  rewrite fmap_app. simpl.
  destruct (decide (Z.of_nat (length xs) < C)) as [Hlt|Hge].
  - (* not yet full: a slot is appended and written *)
    rewrite (Hnil Hlt) in *. simpl in Hlay, Hlen. rewrite app_nil_r.
    rewrite bool_decide_true by (rewrite Hpos, Z.mod_small; lia).
    rewrite setitem_middle.
    rewrite lastn_all by (rewrite length_app, length_fmap; simpl; lia).
    rewrite lastn_all in Hlay by (rewrite length_fmap; lia).
    subst A. rewrite length_fmap in *.
    destruct (decide (Z.of_nat (length xs) + 1 < C)).
    + exists ((stored <$> xs) ++ [stored x]), [].
      rewrite app_nil_r, length_app, length_fmap. simpl.
      rewrite <- Hnext, Z.mod_small by lia.
      layout_done.
    + exists [], ((stored <$> xs) ++ [stored x]).
      rewrite app_nil_r. simpl.
      rewrite <- Hnext. replace (Z.of_nat (length xs) + 1) with C by lia.
      rewrite Z_mod_same_full.
      layout_done.
  - (* full: the slot under the cursor is overwritten *)
    destruct B as [|b B]; [simpl in Hlen; lia|].
    rewrite bool_decide_false by (rewrite length_app; simpl; simpl in Hlen; lia).
    rewrite setitem_middle.
    assert (Hlast : lastn (Z.to_nat C) ((stored <$> xs) ++ [stored x])
                    = B ++ A ++ [stored x]).
    { replace (Z.to_nat C) with (S (Z.to_nat C - 1)) by lia.
      rewrite lastn_snoc, lastn_pred by (rewrite length_fmap; lia).
      replace (S (Z.to_nat C - 1)) with (Z.to_nat C) by lia.
      rewrite <- Hlay. simpl. rewrite drop_0. by rewrite app_assoc. }
    rewrite Hlast. simpl in Hlen.
    destruct (decide (Z.of_nat (length A) + 1 < C)).
    + exists (A ++ [stored x]), B.
      rewrite <- app_assoc, length_app. simpl.
      rewrite <- Hnext, Z.mod_small by lia.
      layout_done.
    + destruct B as [|b' B]; [|simpl in Hlen; lia].
      exists [], (A ++ [stored x]).
      rewrite app_nil_r. simpl.
      rewrite <- Hnext. replace (Z.of_nat (length A) + 1) with C by lia.
      rewrite Z_mod_same_full.
      layout_done.
Qed.

(** Reading the latest [n] slots off the circular layout. *)
Lemma get_latest_layout dev C (A B : list (slot scalar)) n :
  0 < n →
  Z.of_nat (length (A ++ B)) ≤ C →
  (Z.of_nat (length (A ++ B)) < C → B = []) →
  get_latest (mkReplayMemory dev C (A ++ B) (Z.of_nat (length A))) n
    = lastn (Z.to_nat n) (B ++ A).
Proof.
  intros Hn Hle Hnil. unfold get_latest, len. simpl.
  rewrite length_app in *.
  repeat case_bool_decide.
  - rewrite slice_from_nonneg, slice_to_nonneg, Nat2Z.id by lia.
    rewrite drop_app_length, take_app_length.
    rewrite lastn_all by (rewrite length_app; lia). done.
  - rewrite (Hnil ltac:(lia)), app_nil_r. simpl.
    rewrite slice_from_neg by lia. by rewrite Z.opp_involutive.
  - rewrite slice_to_nonneg, Nat2Z.id, take_app_length by lia.
    rewrite slice_from_neg, Z.opp_involutive by lia.
    by rewrite lastn_app_r by lia.
  - rewrite slice_to_nonneg, Nat2Z.id, take_app_length by lia.
    rewrite slice_from_neg by lia.
    rewrite lastn_app_r, lastn_app_l by lia.
    do 2 f_equal. lia.
Qed.

Lemma length_layout C (A B : list (slot scalar)) xs :
  B ++ A = lastn (Z.to_nat C) (stored <$> xs) →
  Z.of_nat (length (A ++ B)) = Z.min (Z.of_nat (length xs)) C `max` 0.
Proof.
  intros Hlay.
  rewrite (Permutation_length (Permutation_app_comm A B)), Hlay.
  rewrite length_lastn, length_fmap. lia.
Qed.

(** A buffer filled by inserts alone answers the recency query with the
    most recent inserts, oldest first. *)
Lemma get_latest_after_inserts C dev xs n :
  0 < C → 0 < n →
  ∃ self, inserts xs (init C dev) = (Ok tt, self)
    ∧ device self = dev ∧ capacity self = C
    ∧ get_latest self n = lastn (Z.to_nat (Z.min n C)) (stored <$> xs).
Proof.
  intros HC Hn.
  destruct (inserts_layout C dev xs HC) as (A & B & Hrun & HA & Hlay & Hnil).
  pose proof (length_layout _ _ _ _ Hlay) as Hlen.
  eexists. split; [exact Hrun|]. simpl. repeat split.
  rewrite get_latest_layout, Hlay, lastn_lastn, Z2Nat.inj_min; try done; try lia.
  intros Hlt. apply Hnil. lia.
Qed.

(** ** The claims on inserting and on the recency query *)

(** C1, first half: on a buffer of the data model and for [n > 0],
    [get_latest n] follows the four branches: the whole storage in wrap
    order when [capacity < n]; the last [n] stored slots when the buffer is
    not full; [storage[cursor-n : cursor]] when it is full and
    [cursor >= n]; and [storage[cursor-n :] ++ storage[: cursor]], of total
    length [n], when it is full and [cursor < n].  Second half: on a buffer
    filled by inserts alone the result is the (at most [n], at most
    [capacity]) most recent inserts, oldest first. *)
Theorem get_latest_spec self n :
  0 < n → bounded self →
  let p := Z.to_nat (position self) in
  let mem := memory self in
  (capacity self < n → get_latest self n = drop p mem ++ take p mem)
  ∧ (n ≤ capacity self → len self < capacity self →
     get_latest self n = lastn (Z.to_nat n) mem)
  ∧ (n ≤ capacity self → len self = capacity self → n ≤ position self →
     get_latest self n = slice mem (position self - n) (position self)
     ∧ Z.of_nat (length (get_latest self n)) = n)
  ∧ (n ≤ capacity self → len self = capacity self → position self < n →
     get_latest self n
       = slice_from mem (position self - n) ++ slice_to mem (position self)
     ∧ get_latest self n = lastn (Z.to_nat (n - position self)) mem ++ take p mem
     ∧ Z.of_nat (length (get_latest self n)) = n)
  ∧ (∀ C dev xs, 0 < C → inserts xs (init C dev) = (Ok tt, self) →
     get_latest self n = lastn (Z.to_nat (Z.min n C)) (stored <$> xs)).
Proof.
  intros Hn [Hpos Hlen] p mem. subst p mem.
  destruct self as [dev C mem pos]. unfold len in *. simpl in *.
  repeat split.
  - intros Hc. unfold get_latest. simpl. rewrite bool_decide_true by done.
    by rewrite slice_from_nonneg, slice_to_nonneg by lia.
  - intros Hc Hnf. unfold get_latest, len. simpl.
    rewrite bool_decide_false, bool_decide_true by lia.
    rewrite slice_from_neg by lia. by rewrite Z.opp_involutive.
  - unfold get_latest, len. simpl.
    rewrite bool_decide_false, bool_decide_false, bool_decide_true by lia.
    rewrite slice_to_nonneg, slice_from_neg, slice_nonneg, Z.opp_involutive by lia.
    unfold lastn. rewrite length_take. f_equal. lia.
  - unfold get_latest, len. simpl.
    rewrite bool_decide_false, bool_decide_false, bool_decide_true by lia.
    rewrite slice_to_nonneg, slice_from_neg, Z.opp_involutive by lia.
    rewrite length_lastn, length_take. lia.
  - unfold get_latest, len. simpl.
    rewrite !bool_decide_false by lia.
    do 2 f_equal. lia.
  - unfold get_latest, len. simpl.
    rewrite !bool_decide_false by lia.
    rewrite slice_to_nonneg, slice_from_neg by lia.
    do 2 f_equal. lia.
  - unfold get_latest, len. simpl.
    rewrite !bool_decide_false by lia.
    rewrite slice_to_nonneg, slice_from_neg by lia.
    rewrite length_app, length_lastn, length_take. lia.
  - intros C' dev' xs HC Hrun.
    destruct (get_latest_after_inserts C' dev' xs n HC Hn) as (self & Hrun' & _ & _ & Hget).
    rewrite Hrun' in Hrun. injection Hrun as ->. exact Hget.
Qed.

(** C2: starting from a new buffer of positive capacity, after each insert
    of a sequence (that is, after every prefix of it) the stored count is
    [min(#inserts, capacity)] and the cursor is [#inserts mod capacity]. *)
Theorem inserts_invariant C dev xs (k : nat) :
  0 < C → (k ≤ length xs)%nat →
  ∃ self, inserts (take k xs) (init C dev) = (Ok tt, self)
    ∧ capacity self = C
    ∧ len self = Z.min (Z.of_nat k) C
    ∧ position self = Z.of_nat k `mod` C.
Proof.
  intros HC Hk.
  destruct (inserts_layout C dev (take k xs) HC) as (A & B & Hrun & HA & Hlay & _).
  rewrite length_take, Nat.min_l in HA by done.
  eexists. split; [exact Hrun|]. unfold len. simpl. repeat split; [|done].
  rewrite (Permutation_length (Permutation_app_comm A B)), Hlay.
  rewrite length_lastn, length_fmap, length_take. lia.
Qed.

(** C3: after [C + k] inserts ([k >= 1]) into a new buffer of capacity
    [C > 0], the storage holds exactly the last [C] inserted items, and
    [get_latest C] lists them in insertion order. *)
Theorem overwrite_keeps_last C dev xs (k : nat) :
  0 < C → (1 ≤ k)%nat → length xs = (Z.to_nat C + k)%nat →
  ∃ self, inserts xs (init C dev) = (Ok tt, self)
    ∧ memory self ≡ₚ lastn (Z.to_nat C) (stored <$> xs)
    ∧ lastn (Z.to_nat C) (stored <$> xs) = stored <$> drop k xs
    ∧ get_latest self C = stored <$> drop k xs.
Proof.
  intros HC Hk Hlen.
  destruct (inserts_layout C dev xs HC) as (A & B & Hrun & HA & Hlay & Hnil).
  assert (Hdrop : lastn (Z.to_nat C) (stored <$> xs) = stored <$> drop k xs).
  { unfold lastn. rewrite length_fmap, fmap_drop. f_equal. lia. }
  assert (Hfull : Z.of_nat (length (A ++ B)) = C).
  { rewrite (Permutation_length (Permutation_app_comm A B)), Hlay.
    rewrite length_lastn, length_fmap. lia. }
  eexists. split; [exact Hrun|]. simpl. repeat split.
  - rewrite <- Hlay. apply Permutation_app_comm.
  - done.
  - rewrite get_latest_layout by lia.
    rewrite Hlay, lastn_lastn, Nat.min_id. done.
Qed.

End Inserting.

(** ** Transfer between buffers and the degenerate recency query *)

Section Transfer.
Context {scalar : Type}.
Implicit Types (self source : ReplayMemory scalar) (x : Transition (array scalar)).
Import Py PyFacts.

Lemma get_latest_Forall (P : slot scalar → Prop) self n :
  Forall P (memory self) → Forall P (get_latest self n).
Proof.
  intros H. unfold get_latest, slice_from, slice_to.
  repeat case_bool_decide;
    repeat first [ apply Forall_app; split | apply Forall_drop | apply Forall_take ];
    done.
Qed.

Lemma length_get_latest self n :
  bounded self → 0 < n → Z.of_nat (length (get_latest self n)) ≤ n.
Proof.
  intros [Hpos Hlen] Hn. unfold get_latest, len in *.
  repeat case_bool_decide.
  - rewrite slice_from_nonneg, slice_to_nonneg by lia.
    rewrite length_app, length_drop, length_take. lia.
  - rewrite slice_from_neg, length_lastn by lia. lia.
  - rewrite slice_from_neg, length_lastn by lia. lia.
  - rewrite slice_from_neg, slice_to_nonneg by lia.
    rewrite length_app, length_lastn, length_take. lia.
Qed.

Lemma reshape_row_id (a : array scalar) : is_row a = true → Np.reshape_row a = a.
Proof.
  destruct a as [sh d]. unfold is_row, Np.reshape_row. simpl.
  intros H%bool_decide_eq_true. by subst.
Qed.

Lemma stored_row x : row_slot (Some x) = true → stored x = Some x.
Proof.
  destruct x as [s a r ns d]. unfold stored. simpl.
  rewrite !andb_true_iff. intros (Hs & Ha & Hr & Hns & Hd & _).
  by rewrite !reshape_row_id.
Qed.

(** Storage made of single-row transitions is what inserting it again
    stores. *)
Lemma row_slots_stored (l : list (slot scalar)) :
  forallb row_slot l = true →
  ∃ ts, l = Some <$> ts ∧ stored <$> ts = l.
Proof.
  induction l as [|e l IH]; simpl.
  - by exists [].
  - intros [He Hl]%andb_true_iff. destruct (IH Hl) as (ts & -> & Hts).
    destruct e as [t|]; [|done].
    exists (t :: ts). rewrite !fmap_cons, Hts, stored_row by done. done.
Qed.

Lemma forallb_get_latest self n :
  forallb row_slot (memory self) = true →
  forallb row_slot (get_latest self n) = true.
Proof.
  rewrite !forallb_forall. intros H e He.
  apply list_elem_of_In in He.
  pose proof (get_latest_Forall (λ e, row_slot e = true) self n) as HF.
  rewrite !Forall_forall in HF. apply HF; [|done].
  intros e' He'. apply H. by apply list_elem_of_In.
Qed.

(** C7, amended to [n >= 1]: transferring the latest [n] slots of a source
    buffer of the data model into a new buffer of capacity at least [n]
    succeeds, and the recency query for [n] then gives the same answer on
    both. *)
Theorem transfer_preserves_recency source n C dev :
  1 ≤ n → n ≤ C → well_formed source →
  ∃ dest, add_latest_from source n (init C dev) = (Ok tt, dest)
    ∧ get_latest dest n = get_latest source n.
Proof.
  intros Hn HC [Hb Hrows]. unfold add_latest_from.
  pose proof (length_get_latest source n Hb ltac:(lia)) as Hlen.
  destruct (row_slots_stored _ (forallb_get_latest source n Hrows))
    as (ts & Hts & Hstored).
  rewrite Hts in *.
  destruct (get_latest_after_inserts C dev ts n ltac:(lia) ltac:(lia))
    as (dest & Hrun & _ & _ & Hget).
  exists dest. split; [exact Hrun|].
  rewrite Hget, Hstored, lastn_all; [done|].
  rewrite length_fmap in *. lia.
Qed.

(** C9, amended: on a non-empty buffer of the data model, [get_latest 0]
    returns the entire storage when the buffer is not full, the non-empty
    prefix [storage[: cursor]] when it is full with the cursor past 0, and
    the empty list when it is full with the cursor at 0. *)
Theorem get_latest_zero self :
  bounded self → memory self ≠ [] →
  (len self < capacity self → get_latest self 0 = memory self)
  ∧ (len self = capacity self → 0 < position self →
     get_latest self 0 = take (Z.to_nat (position self)) (memory self)
     ∧ get_latest self 0 ≠ [])
  ∧ (len self = capacity self → position self = 0 → get_latest self 0 = []).
Proof.
  intros [Hpos Hlen] Hne. unfold get_latest, len in *.
  rewrite (bool_decide_false (capacity self < 0)) by lia.
  repeat split.
  - intros Hnf. rewrite bool_decide_true by done.
    by rewrite slice_from_nonneg.
  - rewrite bool_decide_false, bool_decide_true by lia.
    rewrite slice_from_nonneg, slice_to_nonneg by lia. done.
  - rewrite bool_decide_false, bool_decide_true by lia.
    rewrite slice_from_nonneg, slice_to_nonneg by lia.
    change (Z.to_nat (- 0)) with 0%nat. rewrite drop_0.
    intros Hnil%(f_equal length). rewrite length_take in Hnil.
    destruct (memory self); simpl in *; [done|lia].
  - intros Hfull ->. rewrite bool_decide_false, bool_decide_true by lia.
    by rewrite slice_from_nonneg, slice_to_nonneg.
Qed.

End Transfer.

(** ** Sampling *)

Module RandomFacts.
Import Random.

Lemma choose_spec {A} (P : A → Prop) (pool : list A) (k : nat) (g : rng) :
  (k ≤ length pool)%nat → Forall P pool →
  ∃ r g', choose pool k g = (Ok r, g') ∧ length r = k ∧ Forall P r.
Proof.
  revert pool g. induction k as [|k IH]; intros pool g Hk HP.
  { by exists [], g. }
  simpl. unfold bind at 1.
  assert (∃ j g1, randbelow (length pool) g = (Ok j, g1) ∧ (j < length pool)%nat)
    as (j & g1 & -> & Hj).
  { destruct g as [|r g]; simpl; eexists _, _; (split; [done|]).
    - lia.
    - apply Nat.mod_upper_bound. lia. }
  destruct (lookup_lt_is_Some_2 pool j Hj) as [x Hx].
  destruct (lookup_lt_is_Some_2 pool (length pool - 1)%nat ltac:(lia)) as [y Hy].
  rewrite Hx, Hy.
  destruct (IH (take (length pool - 1) (<[j:=y]> pool)) g1) as (r & g' & Hr & Hlen & HPr).
  { rewrite length_take, length_insert. lia. }
  { apply Forall_take, Forall_insert; [done|]. exact (Forall_lookup_1 _ _ _ _ HP Hy). }
  exists (x :: r), g'. unfold bind, ret. rewrite Hr. repeat split.
  - simpl. by rewrite Hlen.
  - constructor; [|done]. exact (Forall_lookup_1 _ _ _ _ HP Hx).
Qed.

Lemma sample_in_range {A} (P : A → Prop) (population : list A) (k : Z) (g : rng) :
  0 ≤ k ≤ Z.of_nat (length population) → Forall P population →
  ∃ r g', sample population k g = (Ok r, g')
    ∧ length r = Z.to_nat k ∧ Forall P r.
Proof.
  intros Hk HP. unfold sample. rewrite bool_decide_true by done.
  apply choose_spec; [lia|done].
Qed.

Lemma sample_out_of_range {A} (population : list A) (k : Z) (g : rng) :
  k < 0 ∨ Z.of_nat (length population) < k →
  sample population k g = (Raise (ValueError RandomSample), g).
Proof. intros Hk. unfold sample. by rewrite bool_decide_false by lia. Qed.

End RandomFacts.

Module NpFacts.
Import Np.

Lemma concatenate_error {T} (arrs : list (ndarray T)) e :
  concatenate arrs = Raise e → e = ValueError NpConcatenate.
Proof.
  unfold concatenate. destruct arrs as [|a rest]; [congruence|].
  destruct (shape a); [congruence|].
  destruct (forallb _ rest); congruence.
Qed.

Lemma chunks_concat {T} (c : nat) (ds : list (list T)) :
  Forall (λ d, length d = c) ds →
  chunks (length ds) c (concat ds) = ds.
Proof.
  induction 1 as [|d ds Hd _ IH]; simpl; [done|].
  rewrite take_app_length', drop_app_length' by done.
  by rewrite IH.
Qed.

Lemma chunks_fmap {T U} (f : T → U) (r c : nat) (d : list T) :
  chunks r c (f <$> d) = (fmap (M:=list) f <$> chunks r c d : list (list U)).
Proof.
  revert d. induction r as [|r IH]; intros d; simpl; [done|].
  by rewrite <- fmap_take, <- fmap_drop, IH.
Qed.

Lemma length_chunks {T} (r c : nat) (d : list T) : length (chunks r c d) = r.
Proof. revert d. induction r as [|r IH]; intros d; simpl; [done|]. by rewrite IH. Qed.

End NpFacts.

Section Sampling.
Context {scalar float32 : Type} (to_float32 : scalar → float32).
Implicit Types (self : ReplayMemory scalar) (g : Random.rng).
Import Py PyFacts RandomFacts NpFacts.

Lemma to_batch_run column self g :
  to_batch to_float32 column (self, g)
    = (match Np.concatenate column with
       | Ok a => Ok (mkTensor (FloatTensor to_float32 a) (device self))
       | Raise e => Raise e
       end, (self, g)).
Proof.
  unfold to_batch, bind, on_fst, get, lift, ret. simpl.
  by destruct (Np.concatenate column).
Qed.

Lemma unpack_all_error (ts : list (slot scalar)) e :
  unpack_all ts = Raise e → e = TypeError.
Proof.
  induction ts as [|[t|] ts IH]; simpl; [congruence| |congruence].
  destruct (unpack_all ts); [congruence|]. intros [= <-]. by apply IH.
Qed.

Lemma zip_star_error (ts : list (slot scalar)) e :
  zip_star ts = Raise e → e = TypeError.
Proof.
  unfold zip_star. destruct (unpack_all ts) as [[|t l]|e'] eqn:Hu; try congruence.
  intros [= <-]. by eapply unpack_all_error.
Qed.

Lemma Transition_new_error {A} (args : list A) e :
  Transition_new args = Raise e → e = TypeError.
Proof.
  unfold Transition_new.
  repeat (destruct args as [|? args]; try congruence).
Qed.

(** Grouping neither touches the buffer nor the generator, and does not
    raise the sampler's error. *)
Lemma group_faithful (ts : list (slot scalar)) self g :
  snd (group to_float32 ts (self, g)) = (self, g)
  ∧ fst (group to_float32 ts (self, g)) ≠ Raise (ValueError RandomSample).
Proof.
  unfold group, bind, lift.
  destruct (zip_star ts) as [cols|e] eqn:Hz; simpl;
    [|apply zip_star_error in Hz; by subst].
  destruct (Transition_new cols) as [batch|e] eqn:Ht; simpl;
    [|apply Transition_new_error in Ht; by subst].
  do 5 (rewrite to_batch_run;
        destruct (Np.concatenate _) as [?|e] eqn:Hc; simpl;
        [clear Hc|apply concatenate_error in Hc; by subst]).
  done.
Qed.

(** C6, amended: [sample] raises the sampler's [ValueError] exactly when
    the batch size is negative or exceeds the stored count; it never
    changes the buffer, and when it raises that error the generator is
    untouched as well. *)
Theorem sample_value_error self k g :
  (fst (sample to_float32 k (self, g)) = Raise (ValueError RandomSample)
     ↔ k < 0 ∨ len self < k)
  ∧ fst (snd (sample to_float32 k (self, g))) = self
  ∧ (k < 0 ∨ len self < k → snd (sample to_float32 k (self, g)) = (self, g)).
Proof.
  unfold sample, bind, on_fst, on_snd, get, len. simpl.
  destruct (decide (0 ≤ k ≤ Z.of_nat (length (memory self)))) as [Hin|Hout].
  - destruct (sample_in_range (λ _, True) (memory self) k g Hin)
      as (r & g' & -> & _); [by apply Forall_true|].
    destruct (group_faithful r self g') as [Hs Hr]. rewrite Hs. simpl.
    repeat split; (done || lia).
  - rewrite sample_out_of_range by lia. simpl.
    repeat split; (done || lia).
Qed.

(** A batch of size 0 gives [zip] no argument, hence [Transition] none. *)
Lemma sample_zero self g :
  sample to_float32 0 (self, g) = (Raise TypeError, (self, g)).
Proof.
  unfold sample, bind, on_fst, on_snd, get, Random.sample. simpl.
  rewrite bool_decide_true by lia. done.
Qed.

Lemma length_get_latest_memory self n :
  0 ≤ position self →
  (length (get_latest self n) ≤ length (memory self))%nat.
Proof.
  intros Hpos. unfold get_latest, len.
  repeat case_bool_decide.
  - rewrite slice_from_nonneg, slice_to_nonneg by lia.
    rewrite length_app, length_drop, length_take. lia.
  - unfold slice_from. rewrite length_drop. lia.
  - unfold slice_from, slice_to. rewrite length_drop, length_take. lia.
  - rewrite slice_from_neg, slice_to_nonneg by lia.
    rewrite length_app, length_lastn, length_take. lia.
Qed.

(** C10: [sample_from_latest] raises the sampler's [ValueError], leaving
    buffer and generator as they were, whenever the batch size exceeds the
    length of the pool [get_latest n] -- in particular whenever the buffer
    stores fewer than [batch_size] transitions, even if
    [batch_size <= n]. *)
Theorem sample_from_latest_pool self k n g :
  (Z.of_nat (length (get_latest self n)) < k →
   sample_from_latest to_float32 k n (self, g)
     = (Raise (ValueError RandomSample), (self, g)))
  ∧ (0 ≤ position self → len self < k → k ≤ n →
     sample_from_latest to_float32 k n (self, g)
       = (Raise (ValueError RandomSample), (self, g))).
Proof.
  assert (Hfail : Z.of_nat (length (get_latest self n)) < k →
                  sample_from_latest to_float32 k n (self, g)
                  = (Raise (ValueError RandomSample), (self, g))).
  { intros Hk. unfold sample_from_latest, bind, on_fst, on_snd, get. simpl.
    by rewrite sample_out_of_range by lia. }
  split; [done|]. intros Hpos Hlen _. apply Hfail.
  pose proof (length_get_latest_memory self n Hpos). unfold len in *. lia.
Qed.

Lemma widths_field (w : Transition nat) (t : Transition (array scalar)) f :
  slot_widths w (Some t) = true →
  row_of_width (get_field f w) (get_field f t) = true.
Proof.
  simpl. rewrite !andb_true_iff. intros (?&?&?&?&?&_). by destruct f.
Qed.

Lemma widths_slots (w : Transition nat) (l : list (slot scalar)) :
  Forall (λ e, slot_widths w e = true) l → ∃ ts, l = Some <$> ts.
Proof.
  induction 1 as [|e l He _ [ts ->]]; [by exists []|].
  destruct e as [t|]; [|done]. by exists (t :: ts).
Qed.

Lemma unpack_all_some (ts : list (Transition (array scalar))) :
  unpack_all (Some <$> ts) = Ok ts.
Proof.
  induction ts as [|t ts IH]; [done|].
  rewrite fmap_cons. cbn [unpack_all]. by rewrite IH.
Qed.

Lemma zip_star_some (ts : list (Transition (array scalar))) :
  ts ≠ [] →
  zip_star (Some <$> ts)
    = Ok [get_field State <$> ts; get_field Action <$> ts;
          get_field Reward <$> ts; get_field NextState <$> ts;
          get_field Done <$> ts].
Proof.
  intros Hne. unfold zip_star. rewrite unpack_all_some.
  by destruct ts.
Qed.

Lemma sum_heads c (col : list (array scalar)) :
  Forall (λ a, row_of_width c a = true) col →
  sum_list (hd 0%nat ∘ shape <$> col) = length col.
Proof.
  induction 1 as [|a col Ha _ IH]; [done|].
  apply andb_true_iff in Ha as [Ha%bool_decide_eq_true _].
  rewrite fmap_cons. change (sum_list (?x :: ?l)) with (x + sum_list l)%nat.
  rewrite IH. simpl. by rewrite Ha.
Qed.

Lemma all_same_trailing c (col : list (array scalar)) :
  Forall (λ a, row_of_width c a = true) col →
  forallb (Np.same_trailing [c]) col = true.
Proof.
  induction 1 as [|a col Ha _ IH]; simpl; [done|].
  apply andb_true_iff in Ha as [Ha%bool_decide_eq_true _].
  unfold Np.same_trailing at 1. rewrite Ha, IH.
  by rewrite bool_decide_true.
Qed.

(** Concatenating single rows of equal width stacks them. *)
Lemma concatenate_column c (col : list (array scalar)) :
  col ≠ [] → Forall (λ a, row_of_width c a = true) col →
  ∃ a, Np.concatenate col = Ok a
    ∧ shape a = [length col; c]
    ∧ Np.chunks (length col) c (data a) = data <$> col.
Proof.
  intros Hne Hcol.
  pose proof (sum_heads c col Hcol) as Hsum.
  assert (Hdata : Forall (λ d, length d = c) (data <$> col)).
  { apply Forall_fmap. eapply Forall_impl; [exact Hcol|].
    intros a [_ Ha%bool_decide_eq_true]%andb_true_iff. done. }
  destruct col as [|a rest]; [done|].
  inversion Hcol as [|? ? Ha Hrest]; subst.
  apply andb_true_iff in Ha as [Ha%bool_decide_eq_true _].
  unfold Np.concatenate. rewrite Ha, (all_same_trailing c rest Hrest).
  eexists. split; [done|]. cbn [shape data]. split.
  - by rewrite Hsum.
  - rewrite <- (chunks_concat c (data <$> a :: rest) Hdata) at 2.
    by rewrite length_fmap.
Qed.

Lemma to_batch_grouped self g (w : Transition nat) f
    (ts : list (Transition (array scalar))) k :
  ts ≠ [] → length ts = Z.to_nat k →
  Forall (λ t, Some t ∈ memory self ∧ slot_widths w (Some t) = true) ts →
  ∃ T, to_batch to_float32 (get_field f <$> ts) (self, g) = (Ok T, (self, g))
    ∧ grouped to_float32 self k w f T.
Proof.
  intros Hne Hlen Hts. rewrite to_batch_run.
  destruct (concatenate_column (get_field f w) (get_field f <$> ts))
    as (a & -> & Hshape & Hrows).
  { by destruct ts. }
  { apply Forall_fmap. eapply Forall_impl; [exact Hts|].
    intros t [_ Ht]. by apply widths_field. }
  rewrite length_fmap in Hshape, Hrows.
  eexists. split; [done|]. unfold grouped, Np.rows. simpl.
  rewrite Hshape, chunks_fmap, Hrows, <- Hlen.
  repeat split.
  - by rewrite !length_fmap.
  - rewrite <- !list_fmap_compose. apply Forall_fmap.
    eapply Forall_impl; [exact Hts|].
    intros t [Hin _]. by exists t.
Qed.

(** C8: on a buffer whose stored transitions have the same feature counts
    throughout, [sample batch_size] with
    [1 <= batch_size <= stored count] returns five batches in the order
    state, action, reward, next_state, done; each has [batch_size] rows,
    and every row is the row of that field of some stored transition (cast
    to the tensor's element type). *)
Theorem sample_groups self k g (w : Transition nat) :
  homogeneous w self → 1 ≤ k ≤ len self →
  ∃ s a r ns d g',
    sample to_float32 k (self, g) = (Ok (s, a, r, ns, d), (self, g'))
    ∧ grouped to_float32 self k w State s
    ∧ grouped to_float32 self k w Action a
    ∧ grouped to_float32 self k w Reward r
    ∧ grouped to_float32 self k w NextState ns
    ∧ grouped to_float32 self k w Done d.
Proof.
  intros Hw Hk. unfold homogeneous in Hw.
  assert (HP : Forall (λ e, e ∈ memory self ∧ slot_widths w e = true) (memory self)).
  { apply Forall_forall. intros e He. split; [done|].
    rewrite forallb_forall in Hw. by apply Hw, list_elem_of_In. }
  unfold len in Hk.
  destruct (sample_in_range _ (memory self) k g ltac:(lia) HP)
    as (picks & g' & Hpicks & Hlen & Hall).
  destruct (widths_slots w picks) as [ts ->].
  { eapply Forall_impl; [exact Hall|]. by intros e [_ ?]. }
  rewrite length_fmap in Hlen. apply Forall_fmap in Hall.
  assert (Hne : ts ≠ []) by (destruct ts; [simpl in Hlen; lia|done]).
  destruct (to_batch_grouped self g' w State ts k Hne Hlen Hall) as (s & Hs & Gs).
  destruct (to_batch_grouped self g' w Action ts k Hne Hlen Hall) as (a & Ha & Ga).
  destruct (to_batch_grouped self g' w Reward ts k Hne Hlen Hall) as (r & Hr & Gr).
  destruct (to_batch_grouped self g' w NextState ts k Hne Hlen Hall) as (ns & Hns & Gns).
  destruct (to_batch_grouped self g' w Done ts k Hne Hlen Hall) as (d & Hd & Gd).
  exists s, a, r, ns, d, g'. split; [|done].
  unfold sample, bind at 1 2, on_fst, on_snd, get. cbn [fst snd]. rewrite Hpicks.
  unfold group, bind, lift, ret. rewrite (zip_star_some ts Hne).
  cbn [Transition_new state action reward next_state done].
  by rewrite Hs, Ha, Hns, Hr, Hd.
Qed.

End Sampling.

(** ** Persistence *)

Section Persistence.
Context {scalar : Type}.
Implicit Types (self : ReplayMemory scalar) (ts : list (Transition (array scalar))).
Import Py PyFacts.

(** Saving storage without [None] slots writes the five fields of every
    transition, in storage order. *)
Lemma save_each_run ts (f : list (array scalar)) :
  save_each (Some <$> ts) f = (Ok tt, f ++ concat (fields <$> ts)).
Proof.
  revert f. induction ts as [|t ts IH]; intros f.
  - by rewrite app_nil_r.
  - rewrite !fmap_cons. cbn [save_each concat]. unfold bind, np_save.
    rewrite IH. unfold fields at 2. by rewrite <- !app_assoc.
Qed.

(** Reading the records of [ts] back is the sequence of inserts of [ts]. *)
Lemma load_each_inserts ts self (rest : list (array scalar)) :
  ∃ f', load_each (length ts) (self, concat (fields <$> ts) ++ rest)
        = (fst (inserts ts self), (snd (inserts ts self), f'))
      ∧ (is_ok (fst (inserts ts self)) = true → f' = rest).
Proof.
  revert self. induction ts as [|t ts IH]; intros self.
  - by exists rest.
  - rewrite !fmap_cons. cbn [length load_each concat].
    unfold inserts. rewrite fmap_cons. cbn [add_each add_star].
    unfold bind, on_snd, on_fst, np_load. cbn [fst snd fields app].
    change ([state t; action t; reward t; next_state t; done t]) with (fields t).
    destruct (add (fields t) self) as [[[]|e] self']; cbn [fst snd].
    + apply IH.
    + by eexists.
Qed.

(** [load_info] on a file holding the records of [ts]: the storage is
    emptied (the cursor is not), [ts] goes through the insert path, and on
    success the cursor is overwritten by the saved one. *)
Lemma load_info_run ts (p : Z) self :
  load_info (mkFile [Z.of_nat (length ts); p] (concat (fields <$> ts))) self
    = match inserts ts (set_memory [] self) with
      | (Ok _, self') => (Ok tt, set_position p self')
      | (Raise e, self') => (Raise e, self')
      end.
Proof.
  unfold load_info, bind at 1 2 3 4 5, on_fst at 1 2, get, put, lift.
  cbn [fst snd header records].
  assert (getitem [Z.of_nat (length ts); p] 0 = Ok (Z.of_nat (length ts))) as -> by done.
  assert (getitem [Z.of_nat (length ts); p] 1 = Ok p) as -> by done.
  rewrite Nat2Z.id.
  destruct (load_each_inserts ts (set_memory [] self) []) as (f' & Hrun & _).
  rewrite app_nil_r in Hrun. rewrite Hrun.
  destruct (inserts ts (set_memory [] self)) as [[[]|e] self']; done.
Qed.

(** Loading into a new buffer that is large enough restores storage and
    cursor. *)
Lemma load_info_new ts (p C : Z) dev :
  Z.of_nat (length ts) ≤ C → 0 < C →
  load_info (mkFile [Z.of_nat (length ts); p] (concat (fields <$> ts))) (init C dev)
    = (Ok tt, mkReplayMemory dev C (stored <$> ts) p).
Proof.
  intros Hle HC. rewrite load_info_run.
  change (set_memory [] (init C dev)) with (init C dev : ReplayMemory scalar).
  destruct (inserts_layout C dev ts HC) as (A & B & -> & HA & Hlay & Hnil).
  rewrite lastn_all in Hlay by (rewrite length_fmap; lia).
  unfold set_position. simpl. do 2 f_equal.
  destruct (decide (Z.of_nat (length ts) < C)) as [Hlt|Hge].
  - rewrite (Hnil Hlt) in *. by rewrite app_nil_r.
  - replace (Z.of_nat (length ts)) with C in HA by lia.
    rewrite Z_mod_same_full in HA.
    destruct A; [|simpl in HA; lia]. by rewrite app_nil_r in Hlay.
Qed.

(** With the storage emptied and the cursor left at 1 or beyond, the first
    insert writes out of range. *)
Lemma add_stale_cursor (x : Transition (array scalar)) self :
  memory self = [] → 1 ≤ position self →
  fst (add (fields x) self) = Raise IndexError.
Proof.
  intros Hmem Hpos. rewrite add_run. unfold len. rewrite Hmem. simpl.
  case_bool_decide; rewrite setitem_out_of_range by (simpl; lia); done.
Qed.

Lemma load_info_stale_cursor ts (p : Z) self :
  ts ≠ [] → 1 ≤ position self →
  fst (load_info (mkFile [Z.of_nat (length ts); p] (concat (fields <$> ts))) self)
    = Raise IndexError.
Proof.
  intros Hne Hpos. rewrite load_info_run.
  destruct ts as [|t ts]; [done|].
  unfold inserts. rewrite fmap_cons. cbn [add_each add_star]. unfold bind.
  pose proof (add_stale_cursor t (set_memory [] self) eq_refl Hpos) as Hadd.
  destruct (add (fields t) (set_memory [] self)) as [[[]|e] self'];
    simpl in Hadd; [done|]. by rewrite Hadd.
Qed.

(** C4, amended: save then load into a new buffer round-trips [length()]
    and [get_latest(length())] when the capacity is the same, or when it is
    larger and the saved buffer had not wrapped (it was not full, or its
    cursor was 0). *)
Theorem save_load_roundtrip (B : ReplayMemory scalar) C dev :
  well_formed B →
  C = capacity B ∨ (capacity B ≤ C ∧ (len B < capacity B ∨ position B = 0)) →
  ∃ file B',
    save_info B = (Ok tt, file)
    ∧ load_info file (init C dev) = (Ok tt, B')
    ∧ len B' = len B
    ∧ get_latest B' (len B') = get_latest B (len B).
Proof.
  intros [[Hpos Hlen] Hrows] HC.
  destruct (row_slots_stored _ Hrows) as (ts & Hmem & Hst).
  destruct B as [devB CB memB posB]. unfold len in *. simpl in *. subst memB.
  rewrite length_fmap in *.
  eexists _, _. split; [|split].
  - unfold save_info, len. simpl. rewrite save_each_run, length_fmap. done.
  - simpl. apply load_info_new; lia.
  - unfold len. simpl. rewrite Hst, !length_fmap. split; [done|].
    unfold get_latest, len. simpl. rewrite !length_fmap.
    destruct HC as [-> | [HC [Hnf | ->]]]; [done| |].
    + by rewrite !(bool_decide_false (_ < Z.of_nat (length ts))),
        !(bool_decide_true (Z.of_nat (length ts) < _)) by lia.
    + destruct (decide (Z.of_nat (length ts) < CB)) as [Hnf|Hfull].
      * by rewrite !(bool_decide_false (_ < Z.of_nat (length ts))),
          !(bool_decide_true (Z.of_nat (length ts) < _)) by lia.
      * destruct (decide (C = CB)) as [-> | Hne]; [done|].
        rewrite !(bool_decide_false (_ < Z.of_nat (length ts))) by lia.
        rewrite (bool_decide_true (Z.of_nat (length ts) < C)) by lia.
        rewrite (bool_decide_false (Z.of_nat (length ts) < CB)) by lia.
        rewrite (bool_decide_false (Z.of_nat (length ts) ≤ 0)) by lia.
        rewrite Z.add_0_r, slice_to_nonneg by lia. simpl. by rewrite app_nil_r.
Qed.

End Persistence.

(** ** Concrete instances *)

Module Instances.
Import Example.

Local Ltac evaluate :=
  vm_compute; repeat split; try done; try (intros ?; discriminate).

(** The recency query along one run with capacity 5: three inserts (not
    full), five (full, cursor 0), six (cursor 1, the first item overwritten). *)
Example recency_trace :
  get_latest (filled 5 [0; 1; 2]) 2 = stored <$> (obs <$> [1; 2])
  ∧ get_latest (filled 5 [0; 1; 2; 3; 4]) 2 = stored <$> (obs <$> [3; 4])
  ∧ get_latest (filled 5 [0; 1; 2; 3; 4; 5]) 3 = stored <$> (obs <$> [3; 4; 5]).
Proof. repeat split; vm_compute; reflexivity. Qed.

Lemma get_latest_spec_witness :
  0 < 2 ∧ bounded wrapped
  ∧ get_latest wrapped 2
      = Py.slice_from (memory wrapped) (position wrapped - 2)
          ++ Py.slice_to (memory wrapped) (position wrapped)
  ∧ get_latest wrapped 2 = stored <$> (obs <$> [3; 4]).
Proof.
  assert (Hn : 0 < 2) by done.
  assert (Hb : bounded wrapped) by evaluate.
  destruct (get_latest_spec wrapped 2 Hn Hb) as (_ & _ & _ & Hwrap & Hrecent).
  split; [exact Hn|]. split; [exact Hb|]. split.
  - apply Hwrap; evaluate.
  - rewrite (Hrecent 3 "cpu" (obs <$> [1; 2; 3; 4])) by evaluate. evaluate.
Defined.

Lemma inserts_invariant_witness :
  0 < 3 ∧ (4 ≤ length four)%nat
  ∧ ∃ self, inserts (take 4 four) (init 3 "cpu") = (Ok tt, self)
      ∧ capacity self = 3
      ∧ len self = Z.min 4 3
      ∧ position self = 4 `mod` 3.
Proof.
  assert (HC : 0 < 3) by done.
  assert (Hk : (4 ≤ length four)%nat) by (vm_compute; lia).
  split; [exact HC|]. split; [exact Hk|].
  exact (inserts_invariant 3 "cpu" four 4 HC Hk).
Defined.

Lemma overwrite_keeps_last_witness :
  0 < 3 ∧ (1 ≤ 2)%nat ∧ length five = (Z.to_nat 3 + 2)%nat
  ∧ ∃ self, inserts five (init 3 "cpu") = (Ok tt, self)
      ∧ memory self ≡ₚ Py.lastn (Z.to_nat 3) (stored <$> five)
      ∧ Py.lastn (Z.to_nat 3) (stored <$> five)
        = stored <$> drop 2 five
      ∧ get_latest self 3 = stored <$> drop 2 five.
Proof.
  assert (HC : 0 < 3) by done.
  assert (Hk : (1 ≤ 2)%nat) by lia.
  assert (Hl : length five = (Z.to_nat 3 + 2)%nat) by done.
  split; [exact HC|]. split; [exact Hk|]. split; [exact Hl|].
  exact (overwrite_keeps_last 3 "cpu" five 2 HC Hk Hl).
Defined.

(** C4 as stated fails: a wrapped buffer of capacity 3, saved and loaded
    into a new buffer of capacity 4, keeps its length but answers the
    recency query in storage order. *)
Lemma roundtrip_larger_counterexample :
  well_formed wrapped ∧ capacity wrapped ≤ 4
  ∧ ∃ file B',
      save_info wrapped = (Ok tt, file)
      ∧ load_info file (init 4 "cpu") = (Ok tt, B')
      ∧ len B' = len wrapped
      ∧ get_latest B' (len B') ≠ get_latest wrapped (len wrapped).
Proof.
  split; [evaluate|]. split; [evaluate|].
  eexists _, _. split; [vm_compute; reflexivity|].
  split; [vm_compute; reflexivity|]. evaluate.
Qed.

Lemma save_load_roundtrip_witness :
  well_formed wrapped
  ∧ (3 = capacity wrapped
     ∨ (capacity wrapped ≤ 3 ∧ (len wrapped < capacity wrapped ∨ position wrapped = 0)))
  ∧ ∃ file B',
      save_info wrapped = (Ok tt, file)
      ∧ load_info file (init 3 "cuda") = (Ok tt, B')
      ∧ len B' = len wrapped
      ∧ get_latest B' (len B') = get_latest wrapped (len wrapped).
Proof.
  assert (Hwf : well_formed wrapped) by evaluate.
  assert (HC : 3 = capacity wrapped
               ∨ (capacity wrapped ≤ 3
                  ∧ (len wrapped < capacity wrapped ∨ position wrapped = 0)))
    by (left; reflexivity).
  split; [exact Hwf|]. split; [exact HC|].
  exact (save_load_roundtrip wrapped 3 "cuda" Hwf HC).
Defined.

(** C5 at a buffer in use: [load_info] empties the storage but keeps the
    cursor at 1, so the first insert appends one slot and then writes out
    of range; the same file loads into a new buffer, and into the buffer in
    use once [reset] has put the cursor back to 0. *)
Theorem load_into_used_buffer :
  position in_use = 1
  ∧ header one_record_file = [1; 1]
  ∧ load_info one_record_file in_use
      = (Raise IndexError, mkReplayMemory "cpu" 2 [None] 1)
  ∧ load_info one_record_file (init 2 "cpu")
      = (Ok tt, mkReplayMemory "cpu" 2 [stored (obs 7)] 1)
  ∧ (reset;; load_info one_record_file) in_use
      = (Ok tt, mkReplayMemory "cpu" 2 [stored (obs 7)] 1).
Proof. repeat split; vm_compute; reflexivity. Qed.

(** C6 as stated fails: a negative batch size does not exceed the stored
    count, yet the sampler raises its [ValueError]. *)
Lemma sample_negative_counterexample :
  fst (sample (@id Z) (-1) (just_full, draws)) = Raise (ValueError RandomSample)
  ∧ ¬ len just_full < -1.
Proof. evaluate. Qed.

(** C7 as stated fails at [n = 0] and at [n = -1]: the destination of
    capacity 2 is large enough, the transfer succeeds, and the two answers
    to the recency query differ. *)
Lemma transfer_nonpositive_counterexample :
  well_formed partial
  ∧ (0 ≤ 2
     ∧ ∃ dest, add_latest_from partial 0 (init 2 "cpu") = (Ok tt, dest)
         ∧ get_latest dest 0 ≠ get_latest partial 0)
  ∧ (-1 ≤ 2
     ∧ ∃ dest, add_latest_from partial (-1) (init 2 "cpu") = (Ok tt, dest)
         ∧ get_latest dest (-1) ≠ get_latest partial (-1)).
Proof.
  split; [evaluate|].
  split; (split; [done|]); eexists; (split; [vm_compute; reflexivity|]); evaluate.
Qed.

Lemma transfer_preserves_recency_witness :
  1 ≤ 2 ∧ 2 ≤ 2 ∧ well_formed partial
  ∧ ∃ dest, add_latest_from partial 2 (init 2 "cpu") = (Ok tt, dest)
      ∧ get_latest dest 2 = get_latest partial 2.
Proof.
  assert (Hn : 1 ≤ 2) by done.
  assert (HC : 2 ≤ 2) by done.
  assert (Hwf : well_formed partial) by evaluate.
  split; [exact Hn|]. split; [exact HC|]. split; [exact Hwf|].
  exact (transfer_preserves_recency partial 2 2 "cpu" Hn HC Hwf).
Defined.

Lemma sample_groups_witness :
  homogeneous widths wrapped ∧ 1 ≤ 2 ≤ len wrapped
  ∧ ∃ s a r ns d g',
      sample (@id Z) 2 (wrapped, draws) = (Ok (s, a, r, ns, d), (wrapped, g'))
      ∧ grouped (@id Z) wrapped 2 widths State s
      ∧ grouped (@id Z) wrapped 2 widths Action a
      ∧ grouped (@id Z) wrapped 2 widths Reward r
      ∧ grouped (@id Z) wrapped 2 widths NextState ns
      ∧ grouped (@id Z) wrapped 2 widths Done d.
Proof.
  assert (Hw : homogeneous widths wrapped) by (vm_compute; reflexivity).
  assert (Hk : 1 ≤ 2 ≤ len wrapped) by evaluate.
  split; [exact Hw|]. split; [exact Hk|].
  exact (sample_groups (@id Z) wrapped 2 draws widths Hw Hk).
Defined.

(** C9 as stated fails: a full buffer with the cursor at 0 is not empty,
    and [get_latest 0] returns the empty list. *)
Lemma get_latest_zero_counterexample :
  bounded just_full ∧ memory just_full ≠ [] ∧ get_latest just_full 0 = [].
Proof. evaluate. Qed.

Lemma get_latest_zero_witness :
  bounded partial ∧ memory partial ≠ []
  ∧ (len partial < capacity partial ∧ get_latest partial 0 = memory partial).
Proof.
  assert (Hb : bounded partial) by evaluate.
  assert (Hne : memory partial ≠ []) by evaluate.
  assert (Hnf : len partial < capacity partial) by evaluate.
  destruct (get_latest_zero partial Hb Hne) as (Hall & _ & _).
  split; [exact Hb|]. split; [exact Hne|]. split; [exact Hnf|].
  exact (Hall Hnf).
Defined.

Lemma sample_from_latest_pool_witness :
  Z.of_nat (length (get_latest partial 10)) < 4 ∧ 4 ≤ 10
  ∧ sample_from_latest (@id Z) 4 10 (partial, draws)
      = (Raise (ValueError RandomSample), (partial, draws)).
Proof.
  assert (Hpool : Z.of_nat (length (get_latest partial 10)) < 4) by evaluate.
  split; [exact Hpool|]. split; [done|].
  exact (proj1 (sample_from_latest_pool (@id Z) partial 4 10 draws) Hpool).
Defined.

End Instances.

(** ** Further properties of inserting *)

Section Window.
Context {scalar : Type}.
Implicit Types (self : ReplayMemory scalar) (x : Transition (array scalar)).
Import Py PyFacts.

Lemma lastn_app_lastn {A} n (l k : list A) :
  lastn n (lastn n l ++ k) = lastn n (l ++ k).
Proof.
  destruct (decide (length l ≤ n)%nat) as [Hle|Hgt].
  - by rewrite (lastn_all n l).
  - rewrite <- (take_drop (length l - n) l) at 2.
    rewrite <- app_assoc. fold (lastn n l).
    rewrite (lastn_app_r n (take _ l)); [done|].
    rewrite length_app, length_lastn. lia.
Qed.

(** A consistent buffer splits at the cursor. *)
Lemma consistent_split self :
  consistent self →
  ∃ A B : list (slot scalar),
    self = mkReplayMemory (device self) (capacity self) (A ++ B) (Z.of_nat (length A))
    ∧ wrap_order self = B ++ A
    ∧ Z.of_nat (length (A ++ B)) ≤ capacity self
    ∧ Z.of_nat (length A) < capacity self
    ∧ (Z.of_nat (length (A ++ B)) < capacity self → B = []).
Proof.
  intros [HC Hcur]. destruct self as [dev C mem pos]. unfold len, wrap_order in *.
  simpl in *.
  assert (Hp : 0 ≤ pos ≤ Z.of_nat (length mem)) by lia.
  exists (take (Z.to_nat pos) mem), (drop (Z.to_nat pos) mem).
  rewrite take_drop, length_take, slice_from_nonneg, slice_to_nonneg by lia.
  repeat split; try lia.
  - f_equal. lia.
  - intros Hnf. apply drop_ge. lia.
Qed.

Local Ltac split_done :=
  repeat split; rewrite ?app_nil_r, ?length_app; simpl in *;
  first [ done | lia | do 2 f_equal; lia
        | intros ?; exfalso; rewrite ?length_app in *; simpl in *; lia ].

(** One insert on the split form. *)
Lemma add_split dev C (A B : list (slot scalar)) x :
  0 < C →
  Z.of_nat (length (A ++ B)) ≤ C →
  Z.of_nat (length A) < C →
  (Z.of_nat (length (A ++ B)) < C → B = []) →
  ∃ A' B' : list (slot scalar),
    add (fields x) (mkReplayMemory dev C (A ++ B) (Z.of_nat (length A)))
      = (Ok tt, mkReplayMemory dev C (A' ++ B') (Z.of_nat (length A')))
    ∧ B' ++ A' = lastn (Z.to_nat C) ((B ++ A) ++ [stored x])
    ∧ Z.of_nat (length (A' ++ B')) = Z.min (Z.of_nat (length (A ++ B)) + 1) C
    ∧ Z.of_nat (length A') = (Z.of_nat (length A) + 1) `mod` C
    ∧ (Z.of_nat (length (A' ++ B')) < C → B' = []).
Proof.
  intros HC Hle HA Hnil. rewrite add_run. unfold len, mod_. simpl.
  rewrite (bool_decide_false (C = 0)) by lia.
  rewrite length_app in *.
  destruct (decide (Z.of_nat (length A + length B) < C)) as [Hnf|Hfull].
  - rewrite (Hnil Hnf) in *. simpl in *. rewrite !app_nil_r, Nat.add_0_r in *.
    rewrite bool_decide_true by done. rewrite setitem_middle.
    rewrite lastn_all by (rewrite length_app; simpl; lia).
    destruct (decide (Z.of_nat (length A) + 1 < C)).
    + exists (A ++ [stored x]), [].
      rewrite !app_nil_r, length_app, Z.mod_small by lia. simpl.
      split_done.
    + exists [], (A ++ [stored x]).
      replace (Z.of_nat (length A) + 1) with C by lia.
      rewrite Z_mod_same_full, app_nil_r, length_app. simpl.
      split_done.
  - destruct B as [|b B]; [simpl in *; lia|]. simpl in Hle, Hfull.
    rewrite bool_decide_false by (simpl; lia). rewrite setitem_middle.
    assert (Hlast : lastn (Z.to_nat C) (((b :: B) ++ A) ++ [stored x])
                    = B ++ A ++ [stored x]).
    { unfold lastn. rewrite !length_app. simpl.
      replace (S (length B + length A + 1) - Z.to_nat C)%nat with 1%nat by lia.
      simpl. by rewrite drop_0, <- app_assoc. }
    rewrite Hlast.
    destruct (decide (Z.of_nat (length A) + 1 < C)).
    + exists (A ++ [stored x]), B.
      rewrite <- app_assoc, !length_app, Z.mod_small by lia. simpl.
      split_done.
    + destruct B as [|b' B]; [|simpl in *; lia].
      exists [], (A ++ [stored x]).
      replace (Z.of_nat (length A) + 1) with C by lia.
      rewrite Z_mod_same_full, !length_app. simpl.
      split_done.
Qed.

(** A run of inserts on the split form. *)
Lemma add_each_split (ts : list (Transition (array scalar))) :
  ∀ dev C (A B : list (slot scalar)),
  0 < C →
  Z.of_nat (length (A ++ B)) ≤ C →
  Z.of_nat (length A) < C →
  (Z.of_nat (length (A ++ B)) < C → B = []) →
  ∃ A' B' : list (slot scalar),
    add_each (Some <$> ts) (mkReplayMemory dev C (A ++ B) (Z.of_nat (length A)))
      = (Ok tt, mkReplayMemory dev C (A' ++ B') (Z.of_nat (length A')))
    ∧ B' ++ A' = lastn (Z.to_nat C) ((B ++ A) ++ (stored <$> ts))
    ∧ Z.of_nat (length (A' ++ B'))
      = Z.min (Z.of_nat (length (A ++ B)) + Z.of_nat (length ts)) C
    ∧ Z.of_nat (length A') = (Z.of_nat (length A) + Z.of_nat (length ts)) `mod` C
    ∧ (Z.of_nat (length (A' ++ B')) < C → B' = []).
Proof.
  induction ts as [|t ts IH]; intros dev C A B HC Hle HA Hnil.
  - exists A, B. simpl. rewrite app_nil_r, Z.add_0_r, Z.mod_small by lia.
    rewrite lastn_all by (rewrite length_app in *; lia).
    repeat split; first [done | lia].
  - destruct (add_split dev C A B t HC Hle HA Hnil)
      as (A1 & B1 & Hadd & Hlay1 & Hlen1 & Hpos1 & Hnil1).
    assert (HA1 : Z.of_nat (length A1) < C).
    { rewrite Hpos1. apply Z.mod_pos_bound. lia. }
    destruct (IH dev C A1 B1 HC ltac:(lia) HA1 Hnil1)
      as (A2 & B2 & Hrun & Hlay2 & Hlen2 & Hpos2 & Hnil2).
    exists A2, B2. rewrite fmap_cons. cbn [add_each add_star]. unfold bind.
    rewrite Hadd, Hrun. repeat split; [| | |done].
    + rewrite Hlay2, Hlay1, lastn_app_lastn, fmap_cons.
      f_equal. by rewrite <- app_assoc.
    + rewrite Hlen2, Hlen1. simpl length. lia.
    + rewrite Hpos2, Hpos1, Zplus_mod_idemp_l. f_equal. simpl length. lia.
Qed.

Lemma wrap_order_split dev C (A B : list (slot scalar)) :
  wrap_order (mkReplayMemory dev C (A ++ B) (Z.of_nat (length A))) = B ++ A.
Proof.
  unfold wrap_order. simpl.
  rewrite slice_from_nonneg, slice_to_nonneg, Nat2Z.id by lia.
  by rewrite drop_app_length, take_app_length.
Qed.

Lemma consistent_of_split dev C (A B : list (slot scalar)) :
  0 < C →
  Z.of_nat (length (A ++ B)) ≤ C →
  Z.of_nat (length A) < C →
  (Z.of_nat (length (A ++ B)) < C → B = []) →
  consistent (mkReplayMemory dev C (A ++ B) (Z.of_nat (length A))).
Proof.
  intros HC Hle HA Hnil. unfold consistent, len. simpl. split; [done|].
  destruct (decide (Z.of_nat (length (A ++ B)) < C)) as [Hnf|Hfull].
  - left. split; [done|]. by rewrite (Hnil Hnf), app_nil_r.
  - right. lia.
Qed.

(** A run of inserts on a consistent buffer. *)
Lemma add_each_consistent (ts : list (Transition (array scalar))) self :
  consistent self →
  ∃ self', add_each (Some <$> ts) self = (Ok tt, self')
    ∧ consistent self'
    ∧ device self' = device self
    ∧ capacity self' = capacity self
    ∧ len self' = Z.min (len self + Z.of_nat (length ts)) (capacity self)
    ∧ position self' = (position self + Z.of_nat (length ts)) `mod` capacity self
    ∧ wrap_order self'
      = lastn (Z.to_nat (capacity self)) (wrap_order self ++ (stored <$> ts)).
Proof.
  intros Hc. pose proof Hc as [HC _].
  destruct (consistent_split self Hc) as (A & B & Hself & Hw & Hle & HA & Hnil).
  destruct (add_each_split ts (device self) (capacity self) A B HC Hle HA Hnil)
    as (A' & B' & Hrun & Hlay & Hlen & Hpos & Hnil').
  rewrite <- Hself in Hrun.
  assert (HA' : Z.of_nat (length A') < capacity self).
  { rewrite Hpos. apply Z.mod_pos_bound. lia. }
  pose proof (f_equal memory Hself) as Hmem.
  pose proof (f_equal position Hself) as Hcur. simpl in Hmem, Hcur.
  eexists. split; [exact Hrun|]. unfold len. simpl.
  split; [apply consistent_of_split; first [done | lia]|].
  rewrite wrap_order_split, Hw, Hlay, Hlen, Hpos, Hmem, Hcur. done.
Qed.

(** On a consistent buffer the recency query reads the end of the wrap
    order. *)
Lemma get_latest_wrap self n :
  consistent self → 0 < n →
  get_latest self n = lastn (Z.to_nat n) (wrap_order self).
Proof.
  intros Hc Hn.
  destruct (consistent_split self Hc) as (A & B & Hself & Hw & Hle & HA & Hnil).
  rewrite Hw, Hself. simpl. by apply get_latest_layout.
Qed.

(** X1: a run of inserts on a consistent buffer (new, reset, or left by
    earlier inserts) succeeds and keeps it consistent; the stored count grows
    up to the capacity, the cursor advances modulo the capacity, the wrap
    order slides over the old content followed by the new items, and the
    recency query reads its end. *)
Theorem inserts_on_consistent self (xs : list (Transition (array scalar))) :
  consistent self →
  ∃ self', inserts xs self = (Ok tt, self')
    ∧ consistent self'
    ∧ device self' = device self
    ∧ capacity self' = capacity self
    ∧ len self' = Z.min (len self + Z.of_nat (length xs)) (capacity self)
    ∧ position self' = (position self + Z.of_nat (length xs)) `mod` capacity self
    ∧ wrap_order self'
      = lastn (Z.to_nat (capacity self)) (wrap_order self ++ (stored <$> xs))
    ∧ ∀ n, 0 < n →
        get_latest self' n
        = lastn (Z.to_nat (Z.min n (capacity self)))
            (wrap_order self ++ (stored <$> xs)).
Proof.
  intros Hc.
  destruct (add_each_consistent xs self Hc)
    as (self' & Hrun & Hc' & Hdev & Hcap & Hlen & Hpos & Hw).
  exists self'. split; [exact Hrun|]. do 6 (split; [done|]).
  intros n Hn.
  rewrite (get_latest_wrap self' n Hc' Hn), Hw, lastn_lastn, Z2Nat.inj_min.
  reflexivity.
Qed.

(** X2: on a consistent buffer [add] writes the slot under the cursor and
    leaves every other stored slot as it was. *)
Theorem add_writes_cursor self x :
  consistent self →
  ∃ self', add (fields x) self = (Ok tt, self')
    ∧ memory self' !! Z.to_nat (position self) = Some (stored x)
    ∧ ∀ i, i ≠ Z.to_nat (position self) → (i < length (memory self))%nat →
        memory self' !! i = memory self !! i.
Proof.
  intros [HC Hcur]. rewrite add_run. unfold len, mod_ in *.
  rewrite (bool_decide_false (capacity self = 0)) by lia.
  destruct Hcur as [[Hnf Hp]|[Hfull Hp]].
  - rewrite bool_decide_true by done. simpl.
    rewrite setitem_in_range by (rewrite length_app; simpl; lia).
    eexists. split; [done|]. simpl. split.
    + apply list_lookup_insert_eq. rewrite length_app. simpl. lia.
    + intros i Hi Hlt. rewrite list_lookup_insert_ne by done.
      by apply lookup_app_l.
  - rewrite bool_decide_false by lia. simpl.
    rewrite setitem_in_range by lia.
    eexists. split; [done|]. simpl. split.
    + apply list_lookup_insert_eq. lia.
    + intros i Hi Hlt. by rewrite list_lookup_insert_ne.
Qed.

Lemma Transition_new_arity {A} (args : list A) :
  length args ≠ 5%nat → Transition_new args = Raise TypeError.
Proof.
  intros Hlen. unfold Transition_new.
  do 5 (destruct args as [|? args]; [done|]).
  by destruct args.
Qed.

(** X3: [add] with a number of fields other than five raises [TypeError]
    after the slot has been reserved: a buffer below capacity is left with
    one more slot holding [None] and the cursor where it was; a buffer at
    capacity is left unchanged. *)
Theorem add_wrong_arity (args : list (array scalar)) self :
  length args ≠ 5%nat →
  add args self
    = (Raise TypeError,
       if bool_decide (len self < capacity self)
       then set_memory (memory self ++ [None]) self
       else self).
Proof.
  intros Hlen. unfold add, bind, get, put, lift, ret.
  rewrite Transition_new_arity by (by rewrite length_fmap).
  by case_bool_decide.
Qed.

(** X4: a buffer built with a capacity of zero or less accepts no insert:
    the first [add] raises [IndexError] and leaves the buffer empty. *)
Theorem add_without_capacity C dev x :
  C ≤ 0 → add (fields x) (init C dev) = (Raise IndexError, init C dev).
Proof.
  intros HC. rewrite add_run. unfold len. simpl.
  rewrite bool_decide_false by lia. done.
Qed.

(** X6: on a consistent buffer and for [n > 0], [get_latest n] is the last
    [n] slots of the wrap order (all of them when fewer are stored), so the
    answer for a smaller [n] is a suffix of the answer for a larger one. *)
Theorem get_latest_window self n m :
  consistent self → 0 < n → n ≤ m →
  get_latest self n = lastn (Z.to_nat n) (wrap_order self)
  ∧ get_latest self n `suffix_of` get_latest self m.
Proof.
  intros Hc Hn Hm. rewrite !get_latest_wrap by (done || lia).
  split; [done|].
  replace (Z.to_nat n) with (Z.to_nat n `min` Z.to_nat m)%nat by lia.
  rewrite <- lastn_lastn. apply suffix_drop.
Qed.

(** X7: on a buffer of the data model and for [n > 0], [get_latest n]
    returns exactly [min(n, stored count)] slots. *)
Theorem length_get_latest_exact self n :
  bounded self → 0 < n →
  Z.of_nat (length (get_latest self n)) = Z.min n (len self).
Proof.
  intros [Hpos Hlen] Hn. unfold get_latest, len in *.
  repeat case_bool_decide.
  - rewrite slice_from_nonneg, slice_to_nonneg by lia.
    rewrite length_app, length_drop, length_take. lia.
  - rewrite slice_from_neg, length_lastn by lia. lia.
  - rewrite slice_to_nonneg, slice_from_neg, length_lastn, length_take by lia. lia.
  - rewrite slice_from_neg, slice_to_nonneg by lia.
    rewrite length_app, length_lastn, length_take. lia.
Qed.

End Window.

(** ** Further properties of the transfer between buffers *)

Section Appending.
Context {scalar : Type}.
Implicit Types (self dest other : ReplayMemory scalar).
Import Py PyFacts.

Lemma length_wrap_order self :
  0 ≤ position self → length (wrap_order self) = length (memory self).
Proof.
  intros Hpos. unfold wrap_order.
  rewrite slice_from_nonneg, slice_to_nonneg by done.
  rewrite length_app, length_drop, length_take. lia.
Qed.

(** Appending the latest [n] slots of a consistent buffer to a consistent
    buffer. *)
Lemma transfer_recency dest other n :
  consistent dest → consistent other →
  forallb row_slot (memory other) = true → 0 < n →
  ∃ dest', add_each (get_latest other n) dest = (Ok tt, dest')
    ∧ consistent dest'
    ∧ capacity dest' = capacity dest
    ∧ wrap_order dest'
      = lastn (Z.to_nat (capacity dest)) (wrap_order dest ++ get_latest other n)
    ∧ ∀ k, 0 < k ≤ n → k ≤ len other → k ≤ capacity dest →
        get_latest dest' k = get_latest other k.
Proof.
  intros Hd Ho Hrows Hn.
  destruct (row_slots_stored _ (forallb_get_latest other n Hrows))
    as (ts & Hts & Hstored).
  destruct (add_each_consistent ts dest Hd)
    as (dest' & Hrun & Hd' & _ & Hcap & _ & _ & Hw).
  rewrite Hstored in Hw. rewrite <- Hts in Hrun.
  exists dest'. do 4 (split; [done|]).
  intros k Hk Hlen HC.
  assert (Hpos : 0 ≤ position other) by (destruct Ho as [? [?|?]]; unfold len in *; lia).
  pose proof (length_wrap_order other Hpos) as HW. unfold len in Hlen.
  rewrite (get_latest_wrap dest' k Hd') by lia.
  rewrite Hw, lastn_lastn, lastn_app_r.
  - rewrite !(get_latest_wrap other) by (done || lia).
    rewrite lastn_lastn. f_equal. lia.
  - rewrite (get_latest_wrap other n Ho Hn), length_lastn. lia.
Qed.

(** X8: [add_latest_from(other, n)] with [n > 0] on any consistent buffer,
    empty or not, succeeds, and afterwards the [k] most recent slots of the
    destination are the [k] most recent slots of the source, for every [k]
    up to [n], the source's stored count and the destination's capacity. *)
Theorem add_latest_from_recent dest other n k :
  consistent dest → consistent other →
  forallb row_slot (memory other) = true →
  0 < k ≤ n → k ≤ len other → k ≤ capacity dest →
  ∃ dest', add_latest_from other n dest = (Ok tt, dest')
    ∧ consistent dest'
    ∧ wrap_order dest'
      = lastn (Z.to_nat (capacity dest)) (wrap_order dest ++ get_latest other n)
    ∧ get_latest dest' k = get_latest other k.
Proof.
  intros Hd Ho Hrows Hk Hlen HC.
  destruct (transfer_recency dest other n Hd Ho Hrows ltac:(lia))
    as (dest' & Hrun & Hd' & _ & Hw & Hget).
  exists dest'. unfold add_latest_from. auto.
Qed.

(** X9: [add_content_of(other)] on any consistent buffer succeeds and
    appends the source's latest [capacity] slots, [capacity] being the
    destination's: afterwards the [k] most recent slots of the destination
    are the [k] most recent slots of the source, for every [k] up to the
    source's stored count and the destination's capacity. *)
Theorem add_content_of_recent dest other k :
  consistent dest → consistent other →
  forallb row_slot (memory other) = true →
  0 < k → k ≤ len other → k ≤ capacity dest →
  ∃ dest', add_content_of other dest = (Ok tt, dest')
    ∧ consistent dest'
    ∧ wrap_order dest'
      = lastn (Z.to_nat (capacity dest))
          (wrap_order dest ++ get_latest other (capacity dest))
    ∧ get_latest dest' k = get_latest other k.
Proof.
  intros Hd Ho Hrows Hk Hlen HC. pose proof Hd as [Hcap _].
  destruct (transfer_recency dest other (capacity dest) Hd Ho Hrows Hcap)
    as (dest' & Hrun & Hd' & _ & Hw & Hget).
  exists dest'. unfold add_content_of, bind, get. auto with lia.
Qed.

End Appending.

(** ** Further properties of saving and loading *)

Section Files.
Context {scalar : Type}.
Implicit Types (self : ReplayMemory scalar) (ts : list (Transition (array scalar))).
Import Py PyFacts.

Lemma save_each_prefix ts (l : list (slot scalar)) (f : list (array scalar)) :
  save_each ((Some <$> ts) ++ l) f = save_each l (f ++ concat (fields <$> ts)).
Proof.
  revert f. induction ts as [|t ts IH]; intros f.
  - by rewrite app_nil_r.
  - rewrite !fmap_cons. cbn [app save_each concat]. unfold bind, np_save.
    rewrite IH. unfold fields at 2. by rewrite <- !app_assoc.
Qed.

Lemma length_records ts : length (concat (fields <$> ts)) = (5 * length ts)%nat.
Proof.
  induction ts as [|t ts IH]; [done|].
  rewrite fmap_cons. cbn [concat]. rewrite length_app, IH. simpl. lia.
Qed.

(** X10: saving a storage of transitions succeeds and writes the header
    [[count, cursor]] followed by the five fields of every transition in
    storage order, five records per transition. *)
Theorem save_info_layout self ts :
  memory self = Some <$> ts →
  save_info self
    = (Ok tt, mkFile [len self; position self] (concat (fields <$> ts)))
  ∧ length (records (snd (save_info self))) = (5 * length (memory self))%nat.
Proof.
  intros Hmem. unfold save_info. rewrite Hmem, save_each_run. simpl.
  split; [done|]. by rewrite length_records, length_fmap.
Qed.

(** X11: saving stops at the first [None] slot with [AttributeError]; the
    file is left with the header and the records of the transitions before
    that slot. *)
Theorem save_info_none self ts (rest : list (slot scalar)) :
  memory self = (Some <$> ts) ++ None :: rest →
  save_info self
    = (Raise AttributeError,
       mkFile [len self; position self] (concat (fields <$> ts))).
Proof.
  intros Hmem. unfold save_info. rewrite Hmem, save_each_prefix. done.
Qed.

Lemma first_none (l : list (slot scalar)) :
  None ∈ l → ∃ ts rest, l = (Some <$> ts) ++ None :: rest.
Proof.
  induction l as [|e l IH]; intros Hin.
  - by apply elem_of_nil in Hin.
  - destruct e as [t|].
    + apply elem_of_cons in Hin as [Hin|Hin]; [done|].
      destruct (IH Hin) as (ts & rest & ->). by exists (t :: ts), rest.
    + by exists [], l.
Qed.

(** X5: on a buffer below capacity whose cursor is inside the storage (the
    state [load_info] leaves when a wrapped buffer is loaded into a larger
    one), [add] overwrites the slot under the cursor and leaves the appended
    slot holding [None]; saving that buffer then raises [AttributeError]. *)
Theorem add_leaves_none self (x : Transition (array scalar)) :
  len self < capacity self → 0 ≤ position self < len self →
  ∃ self', add (fields x) self = (Ok tt, self')
    ∧ memory self' = <[Z.to_nat (position self) := stored x]> (memory self) ++ [None]
    ∧ position self' = (position self + 1) `mod` capacity self
    ∧ fst (save_info self') = Raise AttributeError.
Proof.
  intros Hnf Hpos. rewrite add_run. unfold len, mod_ in *.
  rewrite bool_decide_true by done. simpl.
  rewrite setitem_in_range by (rewrite length_app; simpl; lia).
  rewrite (bool_decide_false (capacity self = 0)) by lia.
  rewrite insert_app_l by lia.
  eexists. split; [done|]. simpl. split; [done|]. split; [done|].
  destruct (first_none (<[Z.to_nat (position self):=stored x]> (memory self) ++ [None]))
    as (ts & rest & Hsplit).
  { apply elem_of_app. right. by apply list_elem_of_singleton. }
  unfold save_info. simpl. rewrite Hsplit, save_each_prefix. done.
Qed.

Lemma getitem_0 {A} (a b : A) (l : list A) : getitem (a :: b :: l) 0 = Ok a.
Proof. done. Qed.

Lemma getitem_1 {A} (a b : A) (l : list A) : getitem (a :: b :: l) 1 = Ok b.
Proof. unfold getitem. simpl. rewrite bool_decide_true by lia. done. Qed.

(** X12: a buffer whose slots are single-row transitions, saved and loaded
    into a new buffer that can hold its content, comes back with the same
    storage and the same cursor (the capacity and the device are those of
    the new buffer). *)
Theorem load_restores (B : ReplayMemory scalar) C dev :
  forallb row_slot (memory B) = true → 0 < C → len B ≤ C →
  ∃ file, save_info B = (Ok tt, file)
    ∧ load_info file (init C dev)
      = (Ok tt, mkReplayMemory dev C (memory B) (position B)).
Proof.
  intros Hrows HC Hlen.
  destruct (row_slots_stored _ Hrows) as (ts & Hmem & Hst).
  unfold save_info, len in *. rewrite Hmem, save_each_run, length_fmap in *.
  eexists. split; [done|]. simpl.
  rewrite load_info_new by lia. by rewrite Hst.
Qed.

(** X13: loading a file of any number of transitions into a new buffer of
    positive capacity succeeds; the buffer holds the last [capacity]
    transitions of the file (all of them when they fit), in the circular
    layout a run of inserts leaves, and its cursor is the saved one. *)
Theorem load_overflow ts (p C : Z) dev :
  0 < C →
  ∃ self',
    load_info (mkFile [Z.of_nat (length ts); p] (concat (fields <$> ts))) (init C dev)
      = (Ok tt, self')
    ∧ capacity self' = C
    ∧ position self' = p
    ∧ len self' = Z.min (Z.of_nat (length ts)) C
    ∧ memory self' ≡ₚ lastn (Z.to_nat C) (stored <$> ts)
    ∧ wrap_order (set_position (Z.of_nat (length ts) `mod` C) self')
      = lastn (Z.to_nat C) (stored <$> ts).
Proof.
  intros HC. rewrite load_info_run.
  change (set_memory [] (init C dev)) with (init C dev : ReplayMemory scalar).
  destruct (inserts_layout C dev ts HC) as (A & B & -> & HA & Hlay & Hnil).
  eexists. split; [done|]. unfold len, set_position. simpl.
  do 2 (split; [done|]). split; [|split].
  - rewrite (length_layout _ _ _ _ Hlay). lia.
  - rewrite <- Hlay. apply Permutation_app_comm.
  - rewrite <- HA, <- Hlay. apply wrap_order_split.
Qed.

(** X14: [reset] followed by [load_info] works on every buffer of positive
    capacity that can hold the file's transitions, whatever its storage and
    cursor were: the buffer ends with the file's transitions and the saved
    cursor. *)
Theorem reset_then_load ts (p : Z) self :
  0 < capacity self → Z.of_nat (length ts) ≤ capacity self →
  (reset;; load_info (mkFile [Z.of_nat (length ts); p] (concat (fields <$> ts)))) self
    = (Ok tt, mkReplayMemory (device self) (capacity self) (stored <$> ts) p).
Proof.
  intros HC Hlen. unfold bind at 1, reset, bind, get, put.
  change (set_position 0 (set_memory [] self))
    with (init (capacity self) (device self) : ReplayMemory scalar).
  by apply load_info_new.
Qed.

(** X15: [load_info] on a buffer whose cursor is at 1 or beyond, with a
    file holding at least one transition, raises [IndexError]: the storage
    has been emptied but the cursor has not, so the first insert writes out
    of range.  The buffer is left with the single [None] slot reserved by
    that insert (no slot when the capacity is not positive). *)
Theorem load_stale_cursor ts (p : Z) self :
  ts ≠ [] → 1 ≤ position self →
  load_info (mkFile [Z.of_nat (length ts); p] (concat (fields <$> ts))) self
    = (Raise IndexError,
       set_memory (if bool_decide (0 < capacity self) then [None] else []) self).
Proof.
  intros Hne Hpos. rewrite load_info_run.
  destruct ts as [|t ts]; [done|].
  unfold inserts. rewrite fmap_cons. cbn [add_each add_star]. unfold bind.
  rewrite add_run. unfold len. simpl.
  destruct (decide (0 < capacity self)) as [HC|HC].
  - rewrite !bool_decide_true by done.
    rewrite setitem_out_of_range by (simpl; lia). done.
  - rewrite !bool_decide_false by done.
    rewrite setitem_out_of_range by (simpl; lia). done.
Qed.

Lemma load_each_short ts (tail : list (array scalar)) (m : nat) self :
  (length tail < 5)%nat →
  ∃ f', load_each (length ts + S m) (self, concat (fields <$> ts) ++ tail)
        = (match fst (inserts ts self) with
           | Ok _ => Raise EOFError
           | Raise e => Raise e
           end, (snd (inserts ts self), f')).
Proof.
  intros Htail. revert self. induction ts as [|t ts IH]; intros self.
  - exists []. cbn [length Nat.add load_each fmap list_fmap concat app].
    unfold bind, on_snd, np_load. cbn [fst snd].
    do 5 (destruct tail as [|? tail]; [done|]). simpl in Htail. lia.
  - rewrite !fmap_cons. cbn [length Nat.add load_each concat].
    unfold inserts. rewrite fmap_cons. cbn [add_each add_star].
    unfold bind, on_snd, on_fst, np_load. cbn [fst snd fields app].
    change ([state t; action t; reward t; next_state t; done t]) with (fields t).
    destruct (add (fields t) self) as [[[]|e] self']; cbn [fst snd].
    + apply IH.
    + by eexists.
Qed.

(** X16: a file whose header announces more transitions than it holds makes
    [load_info] raise [EOFError] after the complete transitions have been
    inserted: loading is not atomic, and the saved cursor is not restored. *)
Theorem load_truncated ts (tail : list (array scalar)) (n p C : Z) dev :
  0 < C → Z.of_nat (length ts) ≤ C →
  Z.of_nat (length ts) < n → (length tail < 5)%nat →
  load_info (mkFile [n; p] (concat (fields <$> ts) ++ tail)) (init C dev)
    = (Raise EOFError,
       mkReplayMemory dev C (stored <$> ts) (Z.of_nat (length ts) `mod` C)).
Proof.
  intros HC Hfit Hn Htail.
  unfold load_info, bind at 1 2 3 4 5, on_fst at 1 2, get, put, lift.
  cbn [fst snd header records]. rewrite getitem_0, getitem_1.
  change (set_memory [] (init C dev)) with (init C dev : ReplayMemory scalar).
  replace (Z.to_nat n) with (length ts + S (Z.to_nat n - length ts - 1))%nat by lia.
  destruct (load_each_short ts tail (Z.to_nat n - length ts - 1) (init C dev) Htail)
    as (f' & ->).
  destruct (inserts_layout C dev ts HC) as (A & B & -> & HA & Hlay & Hnil).
  assert (Hmem : A ++ B = stored <$> ts).
  { rewrite lastn_all in Hlay by (rewrite length_fmap; lia).
    destruct (decide (Z.of_nat (length ts) < C)) as [Hlt|Hge].
    - rewrite (Hnil Hlt) in Hlay. by rewrite (Hnil Hlt), app_nil_r.
    - pose proof HA as HA'.
      replace (Z.of_nat (length ts)) with C in HA' by lia.
      rewrite Z_mod_same_full in HA'.
      destruct A; [|simpl in HA'; lia]. by rewrite app_nil_r in Hlay. }
  cbn [fst snd]. by rewrite Hmem, HA.
Qed.

(** X24: a file of single-row transitions, loaded into a new buffer that
    can hold them and saved again, is written back as it was: same header,
    same records. *)
Theorem save_after_load ts (p C : Z) dev :
  forallb row_slot (Some <$> ts) = true → 0 < C → Z.of_nat (length ts) ≤ C →
  ∃ self',
    load_info (mkFile [Z.of_nat (length ts); p] (concat (fields <$> ts))) (init C dev)
      = (Ok tt, self')
    ∧ save_info self'
      = (Ok tt, mkFile [Z.of_nat (length ts); p] (concat (fields <$> ts))).
Proof.
  intros Hrows HC Hlen.
  assert (Hst : stored <$> ts = Some <$> ts).
  { clear Hlen. induction ts as [|t ts IH]; [done|].
    rewrite fmap_cons in Hrows. cbn [forallb] in Hrows.
    apply andb_true_iff in Hrows as [Ht Hrows].
    by rewrite !fmap_cons, IH, stored_row. }
  rewrite load_info_new by done. eexists. split; [done|].
  unfold save_info, len. simpl.
  by rewrite Hst, save_each_run, length_fmap.
Qed.

(** X17: with a header of fewer than two numbers [load_info] raises
    [IndexError]; the buffer has already lost its storage. *)
Theorem load_short_header (file : npy_file scalar) self :
  (length (header file) < 2)%nat →
  load_info file self = (Raise IndexError, set_memory [] self).
Proof.
  intros Hlen. unfold load_info, bind, on_fst, get, put, lift.
  cbn [fst snd]. destruct (header file) as [|n [|p h]]; [done|done|].
  simpl in Hlen. lia.
Qed.

(** X18: a header that announces no transition (a count of zero or less)
    makes [load_info] read nothing: whatever the file holds after the header,
    the buffer ends empty with the saved cursor. *)
Theorem load_no_transition (n p : Z) (h : list Z) (recs : list (array scalar)) self :
  n ≤ 0 →
  load_info (mkFile (n :: p :: h) recs) self
    = (Ok tt, set_position p (set_memory [] self)).
Proof.
  intros Hn. unfold load_info, bind, on_fst, get, put, lift.
  cbn [fst snd header records]. rewrite getitem_0, getitem_1.
  replace (Z.to_nat n) with 0%nat by lia. done.
Qed.

End Files.

(** ** Further properties of shuffling and sampling *)

Module ShuffleFacts.
Import Random.

Lemma swap_permutes {A} (x : list A) (i j : nat) :
  (i < length x)%nat → (j < length x)%nat →
  ∃ x', Py.swap x i j = Ok x' ∧ x' ≡ₚ x.
Proof.
  intros Hi Hj. unfold Py.swap.
  destruct (lookup_lt_is_Some_2 x i Hi) as [xi Hxi].
  destruct (lookup_lt_is_Some_2 x j Hj) as [xj Hxj].
  rewrite Hxi, Hxj. eexists. split; [done|].
  apply Permutation_inj. split; [by rewrite !length_insert|].
  exists (λ n, if decide (n = i) then j else if decide (n = j) then i else n).
  split.
  - intros n m Hnm. repeat case_decide; lia.
  - intros n. destruct (decide (n = j)) as [->|Hnj].
    + rewrite list_lookup_insert_eq by (by rewrite length_insert).
      case_decide; congruence.
    + rewrite list_lookup_insert_ne by done.
      destruct (decide (n = i)) as [->|Hni].
      * by rewrite list_lookup_insert_eq.
      * by rewrite list_lookup_insert_ne.
Qed.

Lemma randbelow_bound (n : nat) (g : rng) :
  (0 < n)%nat → ∃ j g', randbelow n g = (Ok j, g') ∧ (j < n)%nat.
Proof.
  intros Hn. destruct g as [|r g]; simpl; eexists _, _; (split; [done|]).
  - done.
  - apply Nat.mod_upper_bound. lia.
Qed.

Lemma shuffle_down_permutes {A} (i : nat) :
  ∀ (x : list A) (g : rng),
  (i < length x ∨ i = 0)%nat →
  ∃ x' g', shuffle_down i x g = (Ok x', g') ∧ x' ≡ₚ x.
Proof.
  induction i as [|i IH]; intros x g Hi.
  { by exists x, g. }
  cbn [shuffle_down]. unfold bind at 1.
  destruct (randbelow_bound (S i + 1) g ltac:(lia)) as (j & g1 & -> & Hj).
  destruct (swap_permutes x (S i) j ltac:(lia) ltac:(lia)) as (x1 & Hswap & Hperm).
  unfold bind, lift. rewrite Hswap.
  destruct (IH x1 g1) as (x' & g' & -> & Hperm').
  { rewrite (Permutation_length Hperm). lia. }
  exists x', g'. split; [done|]. by rewrite Hperm'.
Qed.

(** Taking the item at [j] out of the pool and moving the last item into
    its place leaves the other items. *)
Lemma pool_step {A} (pool : list A) (j : nat) (x y : A) :
  pool !! j = Some x → pool !! (length pool - 1)%nat = Some y →
  x :: take (length pool - 1) (<[j:=y]> pool) ≡ₚ pool.
Proof.
  intros Hx Hy.
  pose proof (lookup_lt_Some _ _ _ Hx) as Hj.
  assert (Hpool : pool = take (length pool - 1) pool ++ [y]).
  { rewrite <- (take_drop_middle pool (length pool - 1) y Hy) at 1.
    f_equal. f_equal. apply drop_ge. lia. }
  destruct (decide (j = length pool - 1)%nat) as [->|Hne].
  - rewrite list_insert_id by done. assert (x = y) as -> by congruence.
    rewrite Hpool at 3. apply Permutation_cons_append.
  - set (front := take (length pool - 1) pool) in *.
    assert (Hfront : length front = (length pool - 1)%nat).
    { unfold front. rewrite length_take. lia. }
    assert (Hfx : front !! j = Some x).
    { unfold front. rewrite lookup_take_lt by lia. done. }
    rewrite Hpool at 2 3.
    rewrite insert_app_l by lia.
    rewrite take_app_length' by (by rewrite length_insert).
    rewrite <- (take_drop_middle front j x Hfx) at 2.
    rewrite insert_take_drop by lia.
    rewrite <- (Permutation_cons_append _ y).
    rewrite <- !Permutation_middle. apply perm_swap.
Qed.

Lemma choose_distinct {A} (pool : list A) (k : nat) (g : rng) :
  (k ≤ length pool)%nat →
  ∃ r g', choose pool k g = (Ok r, g') ∧ length r = k ∧ r ⊆+ pool.
Proof.
  revert pool g. induction k as [|k IH]; intros pool g Hk.
  { exists [], g. split; [done|]. split; [done|]. apply submseteq_nil_l. }
  cbn [choose]. unfold bind at 1.
  destruct (randbelow_bound (length pool) g ltac:(lia)) as (j & g1 & -> & Hj).
  destruct (lookup_lt_is_Some_2 pool j Hj) as [x Hx].
  destruct (lookup_lt_is_Some_2 pool (length pool - 1)%nat ltac:(lia)) as [y Hy].
  rewrite Hx, Hy.
  destruct (IH (take (length pool - 1) (<[j:=y]> pool)) g1) as (r & g' & Hr & Hlen & Hsub).
  { rewrite length_take, length_insert. lia. }
  exists (x :: r), g'. unfold bind, ret. rewrite Hr. repeat split.
  - simpl. by rewrite Hlen.
  - rewrite <- (pool_step pool j x y Hx Hy). by apply submseteq_skip.
Qed.

End ShuffleFacts.

Section Batches.
Context {scalar float32 : Type} (to_float32 : scalar → float32).
Implicit Types (self : ReplayMemory scalar) (g : Random.rng).
Import Py PyFacts NpFacts ShuffleFacts.

(** X19: [shuffle] never raises; it replaces the storage by a permutation
    of it and leaves capacity, device and cursor as they were. *)
Theorem shuffle_permutes self g :
  ∃ m g', shuffle (self, g) = (Ok tt, (set_memory m self, g'))
    ∧ m ≡ₚ memory self.
Proof.
  unfold shuffle, bind, on_fst, on_snd, get, put, Random.shuffle. cbn [fst snd].
  destruct (shuffle_down_permutes (length (memory self) - 1) (memory self) g)
    as (m & g' & -> & Hperm); [lia|].
  by exists m, g'.
Qed.

Lemma sample_distinct {A} (population : list A) (k : Z) g :
  0 ≤ k ≤ Z.of_nat (length population) →
  ∃ r g', Random.sample population k g = (Ok r, g')
    ∧ length r = Z.to_nat k ∧ r ⊆+ population.
Proof.
  intros Hk. unfold Random.sample. rewrite bool_decide_true by done.
  apply choose_distinct. lia.
Qed.

Lemma to_batch_rows self g (w : Transition nat) f
    (ts : list (Transition (array scalar))) :
  ts ≠ [] → Forall (λ t, slot_widths w (Some t) = true) ts →
  ∃ T, to_batch to_float32 (get_field f <$> ts) (self, g) = (Ok T, (self, g))
    ∧ batch_of to_float32 self w ts f T.
Proof.
  intros Hne Hts. rewrite to_batch_run.
  destruct (concatenate_column (get_field f w) (get_field f <$> ts))
    as (a & -> & Hshape & Hrows).
  { by destruct ts. }
  { apply Forall_fmap. eapply Forall_impl; [exact Hts|].
    intros t Ht. by apply widths_field. }
  rewrite length_fmap in Hshape, Hrows.
  eexists. split; [done|]. unfold batch_of, Np.rows. simpl.
  rewrite Hshape, chunks_fmap, Hrows.
  repeat split. by rewrite <- !list_fmap_compose.
Qed.

(** Grouping transitions of uniform widths. *)
Lemma group_rows self g (w : Transition nat) (ts : list (Transition (array scalar))) :
  ts ≠ [] → Forall (λ t, slot_widths w (Some t) = true) ts →
  ∃ s a r ns d,
    group to_float32 (Some <$> ts) (self, g) = (Ok (s, a, r, ns, d), (self, g))
    ∧ batch_of to_float32 self w ts State s
    ∧ batch_of to_float32 self w ts Action a
    ∧ batch_of to_float32 self w ts Reward r
    ∧ batch_of to_float32 self w ts NextState ns
    ∧ batch_of to_float32 self w ts Done d.
Proof.
  intros Hne Hts.
  destruct (to_batch_rows self g w State ts Hne Hts) as (s & Hs & Gs).
  destruct (to_batch_rows self g w Action ts Hne Hts) as (a & Ha & Ga).
  destruct (to_batch_rows self g w Reward ts Hne Hts) as (r & Hr & Gr).
  destruct (to_batch_rows self g w NextState ts Hne Hts) as (ns & Hns & Gns).
  destruct (to_batch_rows self g w Done ts Hne Hts) as (d & Hd & Gd).
  exists s, a, r, ns, d. split; [|done].
  unfold group, bind, lift, ret. rewrite (zip_star_some ts Hne).
  cbn [Transition_new state action reward next_state done].
  by rewrite Hs, Ha, Hns, Hr, Hd.
Qed.

(** Drawing from a pool of slots of uniform widths. *)
Lemma draw_rows self g (w : Transition nat) (pool : list (slot scalar)) k :
  forallb (slot_widths w) pool = true → 1 ≤ k ≤ Z.of_nat (length pool) →
  ∃ ts s a r ns d g',
    (do transitions <- on_snd (Random.sample pool k); group to_float32 transitions)
      (self, g) = (Ok (s, a, r, ns, d), (self, g'))
    ∧ Some <$> ts ⊆+ pool
    ∧ length ts = Z.to_nat k
    ∧ batch_of to_float32 self w ts State s
    ∧ batch_of to_float32 self w ts Action a
    ∧ batch_of to_float32 self w ts Reward r
    ∧ batch_of to_float32 self w ts NextState ns
    ∧ batch_of to_float32 self w ts Done d.
Proof.
  intros Hw Hk.
  destruct (sample_distinct pool k g ltac:(lia)) as (picks & g' & Hpicks & Hlen & Hsub).
  assert (Hall : Forall (λ e, slot_widths w e = true) picks).
  { apply Forall_forall. intros e He. rewrite forallb_forall in Hw.
    apply Hw, list_elem_of_In. by eapply elem_of_submseteq. }
  destruct (widths_slots w picks Hall) as [ts ->].
  rewrite length_fmap in Hlen. apply Forall_fmap in Hall.
  assert (Hne : ts ≠ []) by (destruct ts; [simpl in Hlen; lia|done]).
  destruct (group_rows self g' w ts Hne Hall) as (s & a & r & ns & d & Hrun & HG).
  exists ts, s, a, r, ns, d, g'.
  unfold bind at 1, on_snd. cbn [fst snd]. rewrite Hpicks, Hrun. done.
Qed.

(** X20: on a buffer of uniform feature counts, [sample batch_size] with
    [1 <= batch_size <= stored count] draws [batch_size] transitions from
    distinct slots (no slot is used twice) and stacks them in the drawn
    order: row [i] of each of the five batches is the field of the same
    [i]-th drawn transition, and all batches live on the buffer's device. *)
Theorem sample_aligned self k g (w : Transition nat) :
  homogeneous w self → 1 ≤ k ≤ len self →
  ∃ ts s a r ns d g',
    sample to_float32 k (self, g) = (Ok (s, a, r, ns, d), (self, g'))
    ∧ Some <$> ts ⊆+ memory self
    ∧ length ts = Z.to_nat k
    ∧ batch_of to_float32 self w ts State s
    ∧ batch_of to_float32 self w ts Action a
    ∧ batch_of to_float32 self w ts Reward r
    ∧ batch_of to_float32 self w ts NextState ns
    ∧ batch_of to_float32 self w ts Done d.
Proof.
  intros Hw Hk. unfold sample, bind at 1, on_fst, get. cbn [fst snd].
  exact (draw_rows self g w (memory self) k Hw Hk).
Qed.

(** X21: on a buffer of uniform feature counts, [sample_from_latest] with
    [1 <= batch_size <= len(get_latest(n))] succeeds and draws its
    transitions from distinct slots of [get_latest(n)] only; the five
    batches are aligned row by row as for [sample]. *)
Theorem sample_from_latest_aligned self k n g (w : Transition nat) :
  homogeneous w self → 1 ≤ k ≤ Z.of_nat (length (get_latest self n)) →
  ∃ ts s a r ns d g',
    sample_from_latest to_float32 k n (self, g) = (Ok (s, a, r, ns, d), (self, g'))
    ∧ Some <$> ts ⊆+ get_latest self n
    ∧ length ts = Z.to_nat k
    ∧ batch_of to_float32 self w ts State s
    ∧ batch_of to_float32 self w ts Action a
    ∧ batch_of to_float32 self w ts Reward r
    ∧ batch_of to_float32 self w ts NextState ns
    ∧ batch_of to_float32 self w ts Done d.
Proof.
  intros Hw Hk. unfold sample_from_latest, bind at 1, on_fst, get. cbn [fst snd].
  apply (draw_rows self g w (get_latest self n) k); [|done].
  apply forallb_forall. intros e He%list_elem_of_In.
  pose proof (get_latest_Forall (λ e, slot_widths w e = true) self n) as HF.
  rewrite !Forall_forall in HF. apply HF; [|done].
  intros e' He'. unfold homogeneous in Hw. rewrite forallb_forall in Hw.
  by apply Hw, list_elem_of_In.
Qed.

Lemma unpack_all_none (l : list (slot scalar)) :
  None ∈ l → unpack_all l = Raise TypeError.
Proof.
  induction l as [|e l IH]; intros Hin.
  - by apply elem_of_nil in Hin.
  - destruct e as [t|]; [|done].
    apply elem_of_cons in Hin as [Hin|Hin]; [done|].
    cbn [unpack_all]. by rewrite IH.
Qed.

(** X22: when the storage has a slot holding [None], sampling as many
    transitions as are stored raises [TypeError] whatever the draws are
    (every slot is drawn); the buffer is unchanged. *)
Theorem sample_all_with_none self g :
  None ∈ memory self →
  fst (sample to_float32 (len self) (self, g)) = Raise TypeError
  ∧ fst (snd (sample to_float32 (len self) (self, g))) = self.
Proof.
  intros Hnone. unfold sample, bind at 1, on_fst, get. cbn [fst snd].
  unfold len, bind, on_snd. cbn [fst snd].
  destruct (sample_distinct (memory self) (Z.of_nat (length (memory self))) g ltac:(lia))
    as (picks & g' & -> & Hlen & Hsub).
  assert (Hperm : picks ≡ₚ memory self).
  { apply submseteq_length_Permutation; [done|lia]. }
  assert (Hin : None ∈ picks) by (by rewrite Hperm).
  unfold group, bind, lift, zip_star. by rewrite (unpack_all_none picks Hin).
Qed.

(** X23: a batch size of 0 makes [sample] and [sample_from_latest] raise
    [TypeError] on every buffer: the empty selection gives [zip] no
    argument, so [Transition] is called without its five fields.  Buffer and
    generator are untouched. *)
Theorem empty_batch self n g :
  sample to_float32 0 (self, g) = (Raise TypeError, (self, g))
  ∧ sample_from_latest to_float32 0 n (self, g) = (Raise TypeError, (self, g)).
Proof.
  unfold sample, sample_from_latest, bind, on_fst, on_snd, get, Random.sample.
  cbn [fst snd]. rewrite !bool_decide_true by lia. done.
Qed.

End Batches.

(** ** Concrete instances of the further properties *)

Module MoreInstances.
Import Example.

Local Ltac evaluate :=
  vm_compute; repeat split; try done; try (intros ?; discriminate).

Local Ltac evaluate_consistent :=
  vm_compute; split; [reflexivity|];
  first [ left; repeat split; first [done | intros ?; discriminate]
        | right; repeat split; first [done | intros ?; discriminate] ].

Lemma inserts_on_consistent_witness :
  consistent wrapped
  ∧ ∃ self', inserts four wrapped = (Ok tt, self')
      ∧ consistent self'
      ∧ len self' = Z.min (len wrapped + Z.of_nat (length four)) (capacity wrapped)
      ∧ position self' = (position wrapped + Z.of_nat (length four)) `mod` capacity wrapped
      ∧ wrap_order self'
        = Py.lastn (Z.to_nat (capacity wrapped)) (wrap_order wrapped ++ (stored <$> four)).
Proof.
  assert (Hc : consistent wrapped) by evaluate_consistent.
  split; [exact Hc|].
  destruct (inserts_on_consistent wrapped four Hc)
    as (self' & Hrun & Hc' & _ & _ & Hlen & Hpos & Hw & _).
  exists self'. auto.
Defined.

Lemma add_writes_cursor_witness :
  consistent wrapped
  ∧ ∃ self', add (fields (obs 5)) wrapped = (Ok tt, self')
      ∧ memory self' !! Z.to_nat (position wrapped) = Some (stored (obs 5))
      ∧ ∀ i, i ≠ Z.to_nat (position wrapped) → (i < length (memory wrapped))%nat →
          memory self' !! i = memory wrapped !! i.
Proof.
  assert (Hc : consistent wrapped) by evaluate_consistent.
  split; [exact Hc|]. exact (add_writes_cursor wrapped (obs 5) Hc).
Defined.

Lemma add_wrong_arity_witness :
  length (@nil (array Z)) ≠ 5%nat
  ∧ add [] partial
    = (Raise TypeError,
       if bool_decide (len partial < capacity partial)
       then set_memory (memory partial ++ [None]) partial
       else partial).
Proof.
  assert (Hlen : length (@nil (array Z)) ≠ 5%nat) by (simpl; lia).
  split; [exact Hlen|]. exact (add_wrong_arity [] partial Hlen).
Defined.

Lemma add_without_capacity_witness :
  0 ≤ 0
  ∧ add (fields (obs 1)) (init 0 "cpu") = (Raise IndexError, init 0 "cpu").
Proof.
  assert (HC : 0 ≤ 0) by done.
  split; [exact HC|]. exact (add_without_capacity 0 "cpu" (obs 1) HC).
Defined.

Lemma add_leaves_none_witness :
  len reloaded < capacity reloaded ∧ 0 ≤ position reloaded < len reloaded
  ∧ ∃ self', add (fields (obs 9)) reloaded = (Ok tt, self')
      ∧ memory self'
        = <[Z.to_nat (position reloaded) := stored (obs 9)]> (memory reloaded) ++ [None]
      ∧ position self' = (position reloaded + 1) `mod` capacity reloaded
      ∧ fst (save_info self') = Raise AttributeError.
Proof.
  assert (Hnf : len reloaded < capacity reloaded) by evaluate.
  assert (Hpos : 0 ≤ position reloaded < len reloaded) by evaluate.
  split; [exact Hnf|]. split; [exact Hpos|].
  exact (add_leaves_none reloaded (obs 9) Hnf Hpos).
Defined.

Lemma get_latest_window_witness :
  consistent wrapped ∧ 0 < 2 ∧ 2 ≤ 3
  ∧ get_latest wrapped 2 = Py.lastn (Z.to_nat 2) (wrap_order wrapped)
  ∧ get_latest wrapped 2 `suffix_of` get_latest wrapped 3.
Proof.
  assert (Hc : consistent wrapped) by evaluate_consistent.
  assert (Hn : 0 < 2) by done.
  assert (Hm : 2 ≤ 3) by (intros ?; discriminate).
  split; [exact Hc|]. split; [exact Hn|]. split; [exact Hm|].
  exact (get_latest_window wrapped 2 3 Hc Hn Hm).
Defined.

Lemma length_get_latest_exact_witness :
  bounded partial ∧ 0 < 4
  ∧ Z.of_nat (length (get_latest partial 4)) = Z.min 4 (len partial).
Proof.
  assert (Hb : bounded partial) by evaluate.
  assert (Hn : 0 < 4) by done.
  split; [exact Hb|]. split; [exact Hn|].
  exact (length_get_latest_exact partial 4 Hb Hn).
Defined.

Lemma add_latest_from_recent_witness :
  consistent in_use ∧ consistent wrapped
  ∧ forallb row_slot (memory wrapped) = true
  ∧ 0 < 2 ≤ 2 ∧ 2 ≤ len wrapped ∧ 2 ≤ capacity in_use
  ∧ ∃ dest', add_latest_from wrapped 2 in_use = (Ok tt, dest')
      ∧ consistent dest'
      ∧ wrap_order dest'
        = Py.lastn (Z.to_nat (capacity in_use)) (wrap_order in_use ++ get_latest wrapped 2)
      ∧ get_latest dest' 2 = get_latest wrapped 2.
Proof.
  assert (Hd : consistent in_use) by evaluate_consistent.
  assert (Ho : consistent wrapped) by evaluate_consistent.
  assert (Hrows : forallb row_slot (memory wrapped) = true) by (vm_compute; reflexivity).
  assert (Hk : 0 < 2 ≤ 2) by evaluate.
  assert (Hlen : 2 ≤ len wrapped) by evaluate.
  assert (HC : 2 ≤ capacity in_use) by evaluate.
  do 6 (split; [assumption|]).
  exact (add_latest_from_recent in_use wrapped 2 2 Hd Ho Hrows Hk Hlen HC).
Defined.

Lemma add_content_of_recent_witness :
  consistent partial ∧ consistent wrapped
  ∧ forallb row_slot (memory wrapped) = true
  ∧ 0 < 3 ∧ 3 ≤ len wrapped ∧ 3 ≤ capacity partial
  ∧ ∃ dest', add_content_of wrapped partial = (Ok tt, dest')
      ∧ consistent dest'
      ∧ wrap_order dest'
        = Py.lastn (Z.to_nat (capacity partial))
            (wrap_order partial ++ get_latest wrapped (capacity partial))
      ∧ get_latest dest' 3 = get_latest wrapped 3.
Proof.
  assert (Hd : consistent partial) by evaluate_consistent.
  assert (Ho : consistent wrapped) by evaluate_consistent.
  assert (Hrows : forallb row_slot (memory wrapped) = true) by (vm_compute; reflexivity).
  assert (Hk : 0 < 3) by done.
  assert (Hlen : 3 ≤ len wrapped) by evaluate.
  assert (HC : 3 ≤ capacity partial) by evaluate.
  do 6 (split; [assumption|]).
  exact (add_content_of_recent partial wrapped 3 Hd Ho Hrows Hk Hlen HC).
Defined.

Lemma save_info_layout_witness :
  memory wrapped = Some <$> (kept <$> [4; 2; 3])
  ∧ save_info wrapped
    = (Ok tt, mkFile [len wrapped; position wrapped]
                (concat (fields <$> (kept <$> [4; 2; 3]))))
  ∧ length (records (snd (save_info wrapped))) = (5 * length (memory wrapped))%nat.
Proof.
  assert (Hmem : memory wrapped = Some <$> (kept <$> [4; 2; 3]))
    by (vm_compute; reflexivity).
  split; [exact Hmem|]. exact (save_info_layout wrapped _ Hmem).
Defined.

Lemma save_info_none_witness :
  memory holed = (Some <$> (kept <$> [4; 9; 3])) ++ None :: []
  ∧ save_info holed
    = (Raise AttributeError,
       mkFile [len holed; position holed] (concat (fields <$> (kept <$> [4; 9; 3])))).
Proof.
  assert (Hmem : memory holed = (Some <$> (kept <$> [4; 9; 3])) ++ None :: [])
    by (vm_compute; reflexivity).
  split; [exact Hmem|]. exact (save_info_none holed _ _ Hmem).
Defined.

Lemma load_restores_witness :
  forallb row_slot (memory wrapped) = true ∧ 0 < 4 ∧ len wrapped ≤ 4
  ∧ ∃ file, save_info wrapped = (Ok tt, file)
      ∧ load_info file (init 4 "cuda")
        = (Ok tt, mkReplayMemory "cuda" 4 (memory wrapped) (position wrapped)).
Proof.
  assert (Hrows : forallb row_slot (memory wrapped) = true) by (vm_compute; reflexivity).
  assert (HC : 0 < 4) by done.
  assert (Hlen : len wrapped ≤ 4) by evaluate.
  do 3 (split; [assumption|]).
  exact (load_restores wrapped 4 "cuda" Hrows HC Hlen).
Defined.

Lemma load_overflow_witness :
  0 < 3
  ∧ ∃ self',
      load_info (mkFile [Z.of_nat (length five); 2] (concat (fields <$> five)))
        (init 3 "cpu") = (Ok tt, self')
      ∧ capacity self' = 3
      ∧ position self' = 2
      ∧ len self' = Z.min (Z.of_nat (length five)) 3
      ∧ memory self' ≡ₚ Py.lastn (Z.to_nat 3) (stored <$> five)
      ∧ wrap_order (set_position (Z.of_nat (length five) `mod` 3) self')
        = Py.lastn (Z.to_nat 3) (stored <$> five).
Proof.
  assert (HC : 0 < 3) by done.
  split; [exact HC|]. exact (load_overflow five 2 3 "cpu" HC).
Defined.

Lemma reset_then_load_witness :
  0 < capacity in_use ∧ Z.of_nat (length [obs 7]) ≤ capacity in_use
  ∧ (reset;; load_info (mkFile [Z.of_nat (length [obs 7]); 1]
                          (concat (fields <$> [obs 7])))) in_use
    = (Ok tt, mkReplayMemory (device in_use) (capacity in_use) (stored <$> [obs 7]) 1).
Proof.
  assert (HC : 0 < capacity in_use) by evaluate.
  assert (Hlen : Z.of_nat (length [obs 7]) ≤ capacity in_use) by evaluate.
  do 2 (split; [assumption|]).
  exact (reset_then_load [obs 7] 1 in_use HC Hlen).
Defined.

Lemma load_stale_cursor_witness :
  [obs 7] ≠ [] ∧ 1 ≤ position in_use
  ∧ load_info (mkFile [Z.of_nat (length [obs 7]); 1] (concat (fields <$> [obs 7]))) in_use
    = (Raise IndexError,
       set_memory (if bool_decide (0 < capacity in_use) then [None] else []) in_use).
Proof.
  assert (Hne : [obs 7] ≠ []) by done.
  assert (Hpos : 1 ≤ position in_use) by evaluate.
  do 2 (split; [assumption|]).
  exact (load_stale_cursor [obs 7] 1 in_use Hne Hpos).
Defined.

Lemma load_truncated_witness :
  0 < 3 ∧ Z.of_nat (length [obs 1]) ≤ 3
  ∧ Z.of_nat (length [obs 1]) < 2 ∧ (length [state (obs 2)] < 5)%nat
  ∧ load_info (mkFile [2; 0] (concat (fields <$> [obs 1]) ++ [state (obs 2)]))
      (init 3 "cpu")
    = (Raise EOFError,
       mkReplayMemory "cpu" 3 (stored <$> [obs 1]) (Z.of_nat (length [obs 1]) `mod` 3)).
Proof.
  assert (HC : 0 < 3) by done.
  assert (Hfit : Z.of_nat (length [obs 1]) ≤ 3) by evaluate.
  assert (Hn : Z.of_nat (length [obs 1]) < 2) by done.
  assert (Htail : (length [state (obs 2)] < 5)%nat) by (simpl; lia).
  do 4 (split; [assumption|]).
  exact (load_truncated [obs 1] [state (obs 2)] 2 0 3 "cpu" HC Hfit Hn Htail).
Defined.

Lemma load_short_header_witness :
  (length (header short_header_file) < 2)%nat
  ∧ load_info short_header_file wrapped = (Raise IndexError, set_memory [] wrapped).
Proof.
  assert (Hlen : (length (header short_header_file) < 2)%nat) by (simpl; lia).
  split; [exact Hlen|]. exact (load_short_header short_header_file wrapped Hlen).
Defined.

Lemma load_no_transition_witness :
  0 ≤ 0
  ∧ load_info (mkFile [0; 2] (fields (kept 1))) wrapped
    = (Ok tt, set_position 2 (set_memory [] wrapped)).
Proof.
  assert (Hn : 0 ≤ 0) by done.
  split; [exact Hn|]. exact (load_no_transition 0 2 [] (fields (kept 1)) wrapped Hn).
Defined.

Lemma save_after_load_witness :
  forallb row_slot (Some <$> (kept <$> [1; 2])) = true
  ∧ 0 < 2 ∧ Z.of_nat (length (kept <$> [1; 2])) ≤ 2
  ∧ ∃ self',
      load_info (mkFile [Z.of_nat (length (kept <$> [1; 2])); 0]
                   (concat (fields <$> (kept <$> [1; 2])))) (init 2 "cpu")
        = (Ok tt, self')
      ∧ save_info self'
        = (Ok tt, mkFile [Z.of_nat (length (kept <$> [1; 2])); 0]
                    (concat (fields <$> (kept <$> [1; 2])))).
Proof.
  assert (Hrows : forallb row_slot (Some <$> (kept <$> [1; 2])) = true)
    by (vm_compute; reflexivity).
  assert (HC : 0 < 2) by done.
  assert (Hlen : Z.of_nat (length (kept <$> [1; 2])) ≤ 2) by evaluate.
  do 3 (split; [assumption|]).
  exact (save_after_load (kept <$> [1; 2]) 0 2 "cpu" Hrows HC Hlen).
Defined.

Lemma sample_aligned_witness :
  homogeneous widths wrapped ∧ 1 ≤ 2 ≤ len wrapped
  ∧ ∃ ts s a r ns d g',
      sample (@id Z) 2 (wrapped, draws) = (Ok (s, a, r, ns, d), (wrapped, g'))
      ∧ Some <$> ts ⊆+ memory wrapped
      ∧ length ts = Z.to_nat 2
      ∧ batch_of (@id Z) wrapped widths ts State s
      ∧ batch_of (@id Z) wrapped widths ts Action a
      ∧ batch_of (@id Z) wrapped widths ts Reward r
      ∧ batch_of (@id Z) wrapped widths ts NextState ns
      ∧ batch_of (@id Z) wrapped widths ts Done d.
Proof.
  assert (Hw : homogeneous widths wrapped) by (vm_compute; reflexivity).
  assert (Hk : 1 ≤ 2 ≤ len wrapped) by evaluate.
  do 2 (split; [assumption|]).
  exact (sample_aligned (@id Z) wrapped 2 draws widths Hw Hk).
Defined.

Lemma sample_from_latest_aligned_witness :
  homogeneous widths wrapped ∧ 1 ≤ 2 ≤ Z.of_nat (length (get_latest wrapped 2))
  ∧ ∃ ts s a r ns d g',
      sample_from_latest (@id Z) 2 2 (wrapped, draws)
        = (Ok (s, a, r, ns, d), (wrapped, g'))
      ∧ Some <$> ts ⊆+ get_latest wrapped 2
      ∧ length ts = Z.to_nat 2
      ∧ batch_of (@id Z) wrapped widths ts State s
      ∧ batch_of (@id Z) wrapped widths ts Action a
      ∧ batch_of (@id Z) wrapped widths ts Reward r
      ∧ batch_of (@id Z) wrapped widths ts NextState ns
      ∧ batch_of (@id Z) wrapped widths ts Done d.
Proof.
  assert (Hw : homogeneous widths wrapped) by (vm_compute; reflexivity).
  assert (Hk : 1 ≤ 2 ≤ Z.of_nat (length (get_latest wrapped 2))) by evaluate.
  do 2 (split; [assumption|]).
  exact (sample_from_latest_aligned (@id Z) wrapped 2 2 draws widths Hw Hk).
Defined.

Lemma sample_all_with_none_witness :
  None ∈ memory holed
  ∧ fst (sample (@id Z) (len holed) (holed, draws)) = Raise TypeError
  ∧ fst (snd (sample (@id Z) (len holed) (holed, draws))) = holed.
Proof.
  assert (Hnone : None ∈ memory holed).
  { change (memory holed) with ((Some <$> (kept <$> [4; 9; 3])) ++ [@None (Transition (array Z))]).
    apply elem_of_app. right. by apply list_elem_of_singleton. }
  split; [exact Hnone|]. exact (sample_all_with_none (@id Z) holed draws Hnone).
Defined.

End MoreInstances.
